(** * Ball devices of the Mission Pinball Framework

    A shallow embedding of [mpf/devices/ball_device/ball_device.py]
    (class [BallDevice]) and the properties of its eject machinery, its
    capacity accounting, its configuration validation and its routing over
    the graph of eject targets.

    Conventions of the embedding.
    - A device object is identified by its name; the static configuration
      ([self.config], [self.tags], [is_playfield()], the machine's collection
      [machine.ball_devices]) is a [World].
    - The attributes the class mutates are the fields of [Device]; the
      machine maps every device to its record.  [_state] and [balls] are
      properties without a setter, which the class reads from its handler
      objects: the record holds what the handlers report, and an
      assignment to either of them raises AttributeError, as it does in
      Python.
    - The event bus, the delay manager, the switch controller, the counter,
      the ejector and the ball handlers are collaborators outside the class:
      a call to one of them is recorded, in order, in the machine's [trace].
    - A coroutine that suspends ([yield from] on a counter, a condition, a
      timer or an event) takes what it was waiting for from the machine's
      [inputs], the script of the environment.  When the script is exhausted
      the coroutine stays [Suspended].
    - Python exceptions are the [Raise] results; the state reached when the
      exception was raised is kept, as in Python.
    - Times are integers in milliseconds. *)

From Stdlib Require Import ZArith List String Ascii Bool Lia Arith.
Import ListNotations.

Local Open Scope string_scope.
Local Open Scope list_scope.
Local Open Scope Z_scope.

(** ** Data model *)

Definition dev := string.

(** The static configuration of one device: [self.config] after
    [_parse_config], with the attributes fixed at construction. *)
Record Config := mkConfig {
  eject_coil : option string;
  hold_coil : option string;
  mechanical_eject : bool;
  ball_switches : list string;
  ball_capacity : Z;
  exit_count_delay : Z;
  entrance_count_delay : Z;
  eject_targets : list dev;
  eject_timeouts : list (dev * Z);
  ball_missing_timeouts : list (dev * Z);
  max_eject_attempts : Z;
  confirm_eject_type : string;
  confirm_eject_switch : option string;
  confirm_eject_event : option string;
  jam_switch : option string;
  player_controlled_eject_event : option string;
  _target_on_unexpected_ball : dev;
  ball_missing_target : dev;
  captures_from : dev
}.

Record World := mkWorld {
  config : dev -> Config;
  tags : dev -> list string;
  is_playfield : dev -> bool;
  (* machine.ball_devices, in the order of the collection *)
  ball_devices : list dev;
  (* Playfield.get_additional_ball_capacity, a class outside this file *)
  playfield_additional_ball_capacity : dev -> Z
}.

(** An entry of [eject_queue]: target, mechanical flag, trigger event. *)
Definition eject := (option dev * bool * option string)%type.

Record Device := mkDevice {
  _state : string;
  balls : Z;
  available_balls : Z;
  eject_queue : list eject;
  num_eject_attempts : Z;
  eject_in_progress_target : option dev;
  mechanical_eject_in_progress : bool;
  trigger_event : option string;
  jam_switch_state_during_eject : bool;
  (* (deadline, source device), earliest first *)
  _incoming_balls : list (Z * dev);
  (* source devices of the blocked attempts *)
  _blocked_eject_attempts : list dev;
  ball_requests : list (dev * bool);
  eject_start_time : option Z;
  _eject_request_condition : bool;
  _eject_success_condition : bool
}.

Inductive exn :=
| AssertionError (msg : string)
| IndexError
| KeyError
| ValueError
| AttributeError (attr : string).

(** Events posted on the bus; the first argument of a per-device event is
    the posting device, whose name is part of the event name. *)
Inductive event :=
| ball_eject_attempt (d : dev) (nballs : Z) (target : option dev)
    (mechanical : bool) (num_attempts : Z)
| ejecting_ball (d : dev) (nballs : Z) (target : option dev)
    (mechanical : bool) (num_attempts : Z)
| ball_left (d : dev) (nballs : Z) (target : option dev) (num_attempts : Z)
| ball_eject_success (d : dev) (nballs : Z) (target : option dev)
| ball_eject_failed (d : dev) (target : option dev) (nballs : Z)
    (retry : bool) (num_attempts : Z)
| ball_eject_permanent_failure (d : dev)
| eject_broken (d : dev)
| ball_lost (d : dev) (target : option dev)
| n_ball_missing (n : Z)
| ball_missing (nballs : Z)
| balls_available
| ok_to_receive (d : dev) (nballs : Z)
| captured_from (source : dev) (nballs : Z).

(** Callbacks a device registers with its collaborators. *)
Inductive callback := cb_eject_success | cb_playfield_active.

Inductive effect :=
| Post (e : event)
| Add_handler (d : dev) (event_name : string) (cb : callback)
| Remove_handler (d : dev) (cb : callback)
| Add_switch_handler (d : dev) (switch : string) (cb : callback)
| Remove_switch_handler (d : dev) (switch : string) (cb : callback)
| Delay_add (d : dev) (name : string) (ms : Z) (cb : callback)
| Delay_remove (d : dev) (name : string)
| Eject_one_ball (d : dev)
| Ejecting_one_ball (d : dev)
| Add_incoming_ball (target source : dev)
| Remove_incoming_ball (target source : dev)
| Add_missing_balls (target : dev) (n : Z)
| Add_eject_to_queue (d target : dev) (eject_timeout max_tries : Z)
    (mechanical : bool)
| Clear_wait_queue (d source : dev).

(** What completes a wait. *)
Inductive wake :=
| Timeout
| BallActivity
| BallLeft
| TriggerEvent
| SourceEjectFailure
| SourceEjectFailureRetry
| IncomingBall
| IncomingBallTimeout
| IncomingBallLost.

Inductive answer :=
| Counted (n : Z)
| Woke (k : wake).

(** One resumption of a suspended coroutine: the time at which it resumes,
    the switches that are then active, whether the eject of the waiting
    device was confirmed meanwhile ([_eject_success_condition] was set), and
    what the coroutine was waiting for. *)
Record env_step := mkStep {
  at_time : Z;
  switches : list string;
  confirms : bool;
  step_answer : answer
}.

Record Machine := mkMachine {
  devices : dev -> Device;
  trace : list effect;
  inputs : list env_step;
  now : Z;
  active_switches : list string
}.

Inductive result (A : Type) :=
| Ok (a : A) (m : Machine)
| Raise (e : exn) (m : Machine)
| Suspended (m : Machine)
| OutOfFuel (m : Machine).

Arguments Ok {A} a m.
Arguments Raise {A} e m.
Arguments Suspended {A} m.
Arguments OutOfFuel {A} m.

Definition M (A : Type) := Machine -> result A.

Definition ret {A} (a : A) : M A := fun m => Ok a m.

Definition bind {A B} (c : M A) (k : A -> M B) : M B :=
  fun m =>
    match c m with
    | Ok a m' => k a m'
    | Raise e m' => Raise e m'
    | Suspended m' => Suspended m'
    | OutOfFuel m' => OutOfFuel m'
    end.

Definition raise {A} (e : exn) : M A := fun m => Raise e m.

Definition out_of_fuel {A} : M A := fun m => OutOfFuel m.

Declare Scope monad_scope.
Delimit Scope monad_scope with monad.
Notation "x <- c ;; k" := (bind c (fun x => k))
  (at level 61, c at next level, right associativity) : monad_scope.
Notation "c ;; k" := (bind c (fun _ => k))
  (at level 61, right associativity) : monad_scope.
Local Open Scope monad_scope.

(** The machine reached by a run, whatever way it ended. *)
Definition final {A} (r : result A) : Machine :=
  match r with
  | Ok _ m | Raise _ m | Suspended m | OutOfFuel m => m
  end.

(** *** Field updates *)

Definition set_state (v : string) (s : Device) : Device :=
  mkDevice v (balls s) (available_balls s) (eject_queue s)
    (num_eject_attempts s) (eject_in_progress_target s)
    (mechanical_eject_in_progress s) (trigger_event s)
    (jam_switch_state_during_eject s) (_incoming_balls s)
    (_blocked_eject_attempts s) (ball_requests s) (eject_start_time s)
    (_eject_request_condition s) (_eject_success_condition s).

Definition set_balls (v : Z) (s : Device) : Device :=
  mkDevice (_state s) v (available_balls s) (eject_queue s)
    (num_eject_attempts s) (eject_in_progress_target s)
    (mechanical_eject_in_progress s) (trigger_event s)
    (jam_switch_state_during_eject s) (_incoming_balls s)
    (_blocked_eject_attempts s) (ball_requests s) (eject_start_time s)
    (_eject_request_condition s) (_eject_success_condition s).

Definition set_available_balls (v : Z) (s : Device) : Device :=
  mkDevice (_state s) (balls s) v (eject_queue s)
    (num_eject_attempts s) (eject_in_progress_target s)
    (mechanical_eject_in_progress s) (trigger_event s)
    (jam_switch_state_during_eject s) (_incoming_balls s)
    (_blocked_eject_attempts s) (ball_requests s) (eject_start_time s)
    (_eject_request_condition s) (_eject_success_condition s).

Definition set_eject_queue (v : list eject) (s : Device) : Device :=
  mkDevice (_state s) (balls s) (available_balls s) v
    (num_eject_attempts s) (eject_in_progress_target s)
    (mechanical_eject_in_progress s) (trigger_event s)
    (jam_switch_state_during_eject s) (_incoming_balls s)
    (_blocked_eject_attempts s) (ball_requests s) (eject_start_time s)
    (_eject_request_condition s) (_eject_success_condition s).

Definition set_num_eject_attempts (v : Z) (s : Device) : Device :=
  mkDevice (_state s) (balls s) (available_balls s) (eject_queue s)
    v (eject_in_progress_target s)
    (mechanical_eject_in_progress s) (trigger_event s)
    (jam_switch_state_during_eject s) (_incoming_balls s)
    (_blocked_eject_attempts s) (ball_requests s) (eject_start_time s)
    (_eject_request_condition s) (_eject_success_condition s).

Definition set_eject_in_progress_target (v : option dev) (s : Device)
  : Device :=
  mkDevice (_state s) (balls s) (available_balls s) (eject_queue s)
    (num_eject_attempts s) v
    (mechanical_eject_in_progress s) (trigger_event s)
    (jam_switch_state_during_eject s) (_incoming_balls s)
    (_blocked_eject_attempts s) (ball_requests s) (eject_start_time s)
    (_eject_request_condition s) (_eject_success_condition s).

Definition set_mechanical_eject_in_progress (v : bool) (s : Device)
  : Device :=
  mkDevice (_state s) (balls s) (available_balls s) (eject_queue s)
    (num_eject_attempts s) (eject_in_progress_target s)
    v (trigger_event s)
    (jam_switch_state_during_eject s) (_incoming_balls s)
    (_blocked_eject_attempts s) (ball_requests s) (eject_start_time s)
    (_eject_request_condition s) (_eject_success_condition s).

Definition set_trigger_event (v : option string) (s : Device) : Device :=
  mkDevice (_state s) (balls s) (available_balls s) (eject_queue s)
    (num_eject_attempts s) (eject_in_progress_target s)
    (mechanical_eject_in_progress s) v
    (jam_switch_state_during_eject s) (_incoming_balls s)
    (_blocked_eject_attempts s) (ball_requests s) (eject_start_time s)
    (_eject_request_condition s) (_eject_success_condition s).

Definition set_jam_switch_state_during_eject (v : bool) (s : Device)
  : Device :=
  mkDevice (_state s) (balls s) (available_balls s) (eject_queue s)
    (num_eject_attempts s) (eject_in_progress_target s)
    (mechanical_eject_in_progress s) (trigger_event s)
    v (_incoming_balls s)
    (_blocked_eject_attempts s) (ball_requests s) (eject_start_time s)
    (_eject_request_condition s) (_eject_success_condition s).

Definition set_incoming_balls (v : list (Z * dev)) (s : Device) : Device :=
  mkDevice (_state s) (balls s) (available_balls s) (eject_queue s)
    (num_eject_attempts s) (eject_in_progress_target s)
    (mechanical_eject_in_progress s) (trigger_event s)
    (jam_switch_state_during_eject s) v
    (_blocked_eject_attempts s) (ball_requests s) (eject_start_time s)
    (_eject_request_condition s) (_eject_success_condition s).

Definition set_blocked_eject_attempts (v : list dev) (s : Device) : Device :=
  mkDevice (_state s) (balls s) (available_balls s) (eject_queue s)
    (num_eject_attempts s) (eject_in_progress_target s)
    (mechanical_eject_in_progress s) (trigger_event s)
    (jam_switch_state_during_eject s) (_incoming_balls s)
    v (ball_requests s) (eject_start_time s)
    (_eject_request_condition s) (_eject_success_condition s).

Definition set_eject_start_time (v : option Z) (s : Device) : Device :=
  mkDevice (_state s) (balls s) (available_balls s) (eject_queue s)
    (num_eject_attempts s) (eject_in_progress_target s)
    (mechanical_eject_in_progress s) (trigger_event s)
    (jam_switch_state_during_eject s) (_incoming_balls s)
    (_blocked_eject_attempts s) (ball_requests s) v
    (_eject_request_condition s) (_eject_success_condition s).

Definition set_eject_request_condition (v : bool) (s : Device) : Device :=
  mkDevice (_state s) (balls s) (available_balls s) (eject_queue s)
    (num_eject_attempts s) (eject_in_progress_target s)
    (mechanical_eject_in_progress s) (trigger_event s)
    (jam_switch_state_during_eject s) (_incoming_balls s)
    (_blocked_eject_attempts s) (ball_requests s) (eject_start_time s)
    v (_eject_success_condition s).

Definition set_eject_success_condition (v : bool) (s : Device) : Device :=
  mkDevice (_state s) (balls s) (available_balls s) (eject_queue s)
    (num_eject_attempts s) (eject_in_progress_target s)
    (mechanical_eject_in_progress s) (trigger_event s)
    (jam_switch_state_during_eject s) (_incoming_balls s)
    (_blocked_eject_attempts s) (ball_requests s) (eject_start_time s)
    (_eject_request_condition s) v.

(** *** Primitive actions *)

Definition update_device (d : dev) (f : Device -> Device) (m : Machine)
  : Machine :=
  mkMachine (fun x => if String.eqb x d then f (devices m x) else devices m x)
    (trace m) (inputs m) (now m) (active_switches m).

Definition record (e : effect) (m : Machine) : Machine :=
  mkMachine (devices m) (trace m ++ [e]) (inputs m) (now m)
    (active_switches m).

Definition read {A} (d : dev) (f : Device -> A) : M A :=
  fun m => Ok (f (devices m d)) m.

Definition modify (d : dev) (f : Device -> Device) : M unit :=
  fun m => Ok tt (update_device d f m).

Definition emit (e : effect) : M unit := fun m => Ok tt (record e m).

(* self._state = v.  The class defines [_state] as a property with a getter
   only: the assignment raises AttributeError and stores nothing. *)
Definition assign_state (self : dev) (v : string) : M unit :=
  raise (AttributeError "_state").

(* self.balls = v: [balls] is a property with a getter only, too *)
Definition assign_balls (self : dev) (v : Z) : M unit :=
  raise (AttributeError "balls").

Definition post (e : event) : M unit := emit (Post e).

Definition get_time : M Z := fun m => Ok (now m) m.

(* switch_controller.is_active(name, ms) *)
Definition is_active (switch : string) : M bool :=
  fun m => Ok (existsb (String.eqb switch) (active_switches m)) m.

Definition suspend {A} : M A := fun m => Suspended m.

(** Resume after a suspension: the next step of the script sets the clock
    and the switches, sets the success condition of the waiting device when
    its eject was confirmed, and hands over its answer. *)
Definition await (self : dev) : M answer :=
  fun m =>
    match inputs m with
    | [] => Suspended m
    | s :: rest =>
        let m' :=
          mkMachine (devices m) (trace m) rest (at_time s) (switches s) in
        Ok (step_answer s)
          (if confirms s
           then update_device self (set_eject_success_condition true) m'
           else m')
    end.

(* counter.count_balls() *)
Definition count_balls (self : dev) : M Z :=
  a <- await self ;;
  match a with
  | Counted n => ret n
  | Woke _ => suspend
  end.

(* Calling a coroutine function only creates the coroutine object: its body
   runs when the object is iterated ([yield from]), not at the call. *)
Definition create_coroutine {A} (c : M A) : M unit := ret tt.

Fixpoint for_each {A} (l : list A) (f : A -> M unit) : M unit :=
  match l with
  | [] => ret tt
  | x :: rest => f x ;; for_each rest f
  end.

(* Python truth value of an optional string: None and the empty string are
   false. *)
Definition truthy_str (o : option string) : bool :=
  match o with
  | Some s => negb (String.eqb s "")
  | None => false
  end.

(* Python truth value of an optional string or object. *)
Definition truthy {A} (o : option A) : bool :=
  match o with Some _ => true | None => false end.

Definition mem (x : dev) (l : list dev) : bool := existsb (String.eqb x) l.

(* dict lookup; a later assignment to a key replaces the earlier one *)
Fixpoint dict_get (k : dev) (d : list (dev * Z)) : option Z :=
  match d with
  | [] => None
  | (k', v) :: rest =>
      match dict_get k rest with
      | Some v' => Some v'
      | None => if String.eqb k k' then Some v else None
      end
  end.

Definition lookup (k : option dev) (d : list (dev * Z)) : M Z :=
  match k with
  | None => raise KeyError
  | Some k' =>
      match dict_get k' d with
      | Some v => ret v
      | None => raise KeyError
      end
  end.

(** The result of a search over the devices: what was found, [NotFound]
    where the source returns [False], or [Exhausted] when the recursion went
    deeper than the fuel allows. *)
Inductive search (A : Type) :=
| Found (a : A)
| NotFound
| Exhausted.

Arguments Found {A} a.
Arguments NotFound {A}.
Arguments Exhausted {A}.

(** ** The class [BallDevice] *)

Section BallDevice.

Variable w : World.

(** *** Capacity *)

Definition get_real_additional_capacity (self : dev) (m : Machine) : Z :=
  ball_capacity (config w self) - balls (devices m self).

Definition get_additional_ball_capacity (self : dev) (m : Machine) : Z :=
  let capacity := get_real_additional_capacity self m in
  let capacity :=
    capacity - Z.of_nat (List.length (_incoming_balls (devices m self))) in
  let capacity :=
    if truthy (eject_in_progress_target (devices m self))
    then capacity - 1 else capacity in
  if capacity <? 0 then 0 else capacity.

(** *** Routing over the eject targets

    The searches recurse from device to device with no record of the
    devices already visited; [fuel] bounds the depth of the recursion and
    [Exhausted] is the run that exceeds it.  A search that returns [False]
    in Python is [NotFound]. *)

(* for target_device in eject_targets: skip it, or return what [f] finds *)
Fixpoint for_each_target {A} (skip : dev -> bool) (f : dev -> search A)
  (targets : list dev) : search A :=
  match targets with
  | [] => NotFound
  | target_device :: rest =>
      if skip target_device then for_each_target skip f rest
      else
        match f target_device with
        | Found a => Found a
        | NotFound => for_each_target skip f rest
        | Exhausted => Exhausted
        end
  end.

Fixpoint find_next_trough (fuel : nat) (self : dev) : search dev :=
  match fuel with
  | O => Exhausted
  | S n =>
      if mem "trough" (tags w self) then Found self
      else
        for_each_target (is_playfield w) (find_next_trough n)
          (eject_targets (config w self))
  end.

Fixpoint find_path_to_target (fuel : nat) (self target : dev)
  : search (list dev) :=
  match fuel with
  | O => Exhausted
  | S n =>
      if mem target (eject_targets (config w self))
      then Found [self; target]
      else
        for_each_target (is_playfield w)
          (fun target_device =>
             match find_path_to_target n target_device target with
             | Found path => Found (self :: path)
             | NotFound => NotFound
             | Exhausted => Exhausted
             end)
          (eject_targets (config w self))
  end.

(* filled by _configure_targets: the devices, playfields apart, that list
   this device among their eject targets *)
Definition _source_devices (self : dev) : list dev :=
  filter
    (fun device =>
       negb (is_playfield w device)
       && mem self (eject_targets (config w device)))
    (ball_devices w).

Fixpoint find_one_available_ball (fuel : nat) (m : Machine) (self : dev)
  (path : list dev) : search (list dev) :=
  match fuel with
  | O => Exhausted
  | S n =>
      if mem self path then NotFound
      else
        let path := self :: path in
        if (0 <? available_balls (devices m self))
           && (1 <? List.length path)%nat
        then Found path
        else
          for_each_target (fun _ => false)
            (fun source => find_one_available_ball n m source path)
            (_source_devices self)
  end.

(** *** Configuration validation *)

Definition min_values (d : list (dev * Z)) : M Z :=
  match map snd d with
  | [] => raise ValueError
  | v :: vs => ret (fold_left Z.min vs v)
  end.

Definition max_values (d : list (dev * Z)) : M Z :=
  match map snd d with
  | [] => raise ValueError
  | v :: vs => ret (fold_left Z.max vs v)
  end.

Definition check (failed : bool) (msg : string) : M unit :=
  if failed then raise (AssertionError msg) else ret tt.

(* the result of a search used as a Python truth value *)
Definition found {A} (r : search A) : M bool :=
  match r with
  | Found _ => ret true
  | NotFound => ret false
  | Exhausted => out_of_fuel
  end.

(* 'Configuration error in {} ball device. ...'.format(self.name) *)
Definition configuration_error (self : dev) (msg : string) : string :=
  String.append "Configuration error in "
    (String.append self (String.append " ball device. " msg)).

(* the source quotes mechanical_eject: True in this message *)
Definition no_ejector_msg (self : dev) : string :=
  configuration_error self
    "Device needs an eject_coil, a hold_coil, or mechanical_eject: True".

Definition _validate_config (fuel : nat) (self : dev) : M unit :=
  let c := config w self in
  check (negb (truthy (eject_coil c)) && negb (truthy (hold_coil c))
         && negb (mechanical_eject c))
    (no_ejector_msg self) ;;
  check ((1 <? List.length (ball_switches c))%nat && mechanical_eject c)
    (configuration_error self
       "mechanical_eject can only be used with devices that have 1 ball switch") ;;
  lo <- min_values (eject_timeouts c) ;;
  check (lo <? exit_count_delay c)
    (configuration_error self
       "all eject_timeouts have to be larger than exit_count_delay") ;;
  lo <- min_values (eject_timeouts c) ;;
  check (lo <? entrance_count_delay c)
    (configuration_error self
       "all eject_timeouts have to be larger than entrance_count_delay") ;;
  hi <- max_values (eject_timeouts c) ;;
  lo <- min_values (ball_missing_timeouts c) ;;
  check (lo <? hi)
    (configuration_error self
       "all ball_missing_timeouts have to be larger than all eject_timeouts") ;;
  hi <- max_values (ball_missing_timeouts c) ;;
  check (60000 <? hi)
    (configuration_error self
       "incoming ball timeout has to be larger than all ball_missing_timeouts") ;;
  check (String.eqb (confirm_eject_type c) "switch"
         && negb (truthy (confirm_eject_switch c)))
    "When using confirm_eject_type switch you to specify a confirm_eject_switch" ;;
  (if mem "drain" (tags w self) && negb (mem "trough" (tags w self))
   then
     trough <- found (find_next_trough fuel self) ;;
     check (negb trough) "No path to trough but device is tagged as drain"
   else ret tt) ;;
  (if negb (mem "drain" (tags w self)) && negb (mem "trough" (tags w self))
   then
     path <-
       found (find_path_to_target fuel self (_target_on_unexpected_ball c)) ;;
     check (negb path)
       (String.append "BallDevice "
          (String.append self
             (String.append " has no path to target_on_unexpected_ball '"
                (String.append (_target_on_unexpected_ball c) "'"))))
   else ret tt).

(** *** Planning an eject chain *)

Fixpoint setup_eject_chain_next_hop (self : dev) (path : list dev)
  (player_controlled : bool) : M unit :=
  match path with
  | [] => raise IndexError
  | next_hop :: path =>
      let c := config w self in
      check (negb (mem next_hop (eject_targets c))) "Broken path" ;;
      (* the OutgoingBall carries the timeout of the hop, here in ms *)
      eject_timeout <- lookup (Some next_hop) (eject_timeouts c) ;;
      emit (Add_eject_to_queue self next_hop eject_timeout
              (max_eject_attempts c) player_controlled) ;;
      (if player_controlled
          && (mechanical_eject c
              || truthy_str (player_controlled_eject_event c))
       then
         modify self (fun s =>
           set_eject_queue
             (eject_queue s
              ++ [(Some next_hop, mechanical_eject c,
                   player_controlled_eject_event c)]) s)
       else
         modify self (fun s =>
           set_eject_queue (eject_queue s ++ [(Some next_hop, false, None)])
             s)) ;;
      (match path with
       | [] => ret tt
       | _ :: _ => setup_eject_chain_next_hop next_hop path player_controlled
       end) ;;
      modify self (set_eject_request_condition true)
  end.

Definition setup_eject_chain (self : dev) (path : list dev)
  (player_controlled : bool) : M unit :=
  available <- read self available_balls ;;
  check (available <=? 0)
    "Tried to setup an eject chain, but there are no available balls." ;;
  modify self (fun s => set_available_balls (available_balls s - 1) s) ;;
  match last (map Some path) None, path with
  | Some target, source :: path =>
      check (negb (String.eqb source self)) "Path starts somewhere else!" ;;
      setup_eject_chain_next_hop self path player_controlled ;;
      modify target (fun s => set_available_balls (available_balls s + 1) s) ;;
      post balls_available
  | _, _ => raise IndexError
  end.

(** *** Eject confirmation *)

Definition _notify_target_of_incoming_ball (self : dev) (target : option dev)
  : M unit :=
  match target with
  | None => raise (AttributeError "add_incoming_ball")
  | Some t => emit (Add_incoming_ball t self)
  end.

Definition _cancel_incoming_ball_at_target (self : dev)
  (target : option dev) : M unit :=
  match target with
  | None => raise (AttributeError "remove_incoming_ball")
  | Some t => emit (Remove_incoming_ball t self)
  end.

Definition _setup_eject_confirmation_to_playfield (self target : dev)
  (timeout : Z) : M unit :=
  emit (Add_handler self (String.append target "_active")
          cb_playfield_active) ;;
  s <- read self (fun s => s) ;;
  if mechanical_eject_in_progress s
     && String.eqb (_state s) "waiting_for_ball_mechanical"
  then
    match _incoming_balls s with
    | [] => raise IndexError
    | (_, source) :: _ =>
        source_timeout <-
          lookup (Some self) (eject_timeouts (config w source)) ;;
        let timeout_combined := timeout + source_timeout in
        let timeout_combined :=
          if timeout =? timeout_combined then timeout_combined + 500
          else timeout_combined in
        emit (Delay_add self "playfield_confirmation" timeout_combined
                cb_eject_success)
    end
  else ret tt.

Definition _setup_eject_confirmation_to_target (self : dev)
  (target : option dev) : M unit :=
  match target with
  | None =>
      raise (AssertionError
               "we got an eject confirmation request with no target.")
  | Some t =>
      if negb (is_playfield w t)
      then
        emit (Add_handler self
                (String.append "balldevice_" (String.append t "_ball_enter"))
                cb_eject_success)
      else ret tt
  end.

Definition _setup_eject_confirmation_via_switch (self : dev) : M unit :=
  match confirm_eject_switch (config w self) with
  | None => raise (AttributeError "name")
  | Some switch => emit (Add_switch_handler self switch cb_eject_success)
  end.

Definition _setup_eject_confirmation_via_event (self : dev) : M unit :=
  emit (Add_handler self
          (match confirm_eject_event (config w self) with
           | Some e => e
           | None => "None"
           end)
          cb_eject_success).

Definition _setup_eject_confirmation_fake (self : dev) : M unit :=
  match ball_switches (config w self) with
  | _ :: _ => raise (AssertionError "Cannot use fake with ball switches")
  | [] =>
      emit (Delay_add self "target_eject_confirmation_timeout" 1
              cb_eject_success)
  end.

(* the branches under [if self.debug] only log; they are left out here and
   in [_cancel_eject_confirmation] *)
Definition _setup_eject_confirmation (self : dev) (target : option dev)
  : M unit :=
  let c := config w self in
  modify self (set_eject_success_condition false) ;;
  t <- get_time ;;
  modify self (set_eject_start_time (Some t)) ;;
  timeout <- lookup target (eject_timeouts c) ;;
  (match target with
   | Some t =>
       if is_playfield w t
       then _setup_eject_confirmation_to_playfield self t timeout
       else ret tt
   | None => ret tt
   end) ;;
  if String.eqb (confirm_eject_type c) "target"
  then _setup_eject_confirmation_to_target self target
  else if String.eqb (confirm_eject_type c) "switch"
  then _setup_eject_confirmation_via_switch self
  else if String.eqb (confirm_eject_type c) "event"
  then _setup_eject_confirmation_via_event self
  else if String.eqb (confirm_eject_type c) "fake"
  then _setup_eject_confirmation_fake self
  else
    raise (AssertionError
             (String.append "Invalid confirm_eject_type setting: "
                (confirm_eject_type c))).

Definition _cancel_eject_confirmation (self : dev) : M unit :=
  let c := config w self in
  modify self (set_eject_in_progress_target None) ;;
  emit (Remove_handler self cb_eject_success) ;;
  emit (Remove_handler self cb_playfield_active) ;;
  modify self (set_mechanical_eject_in_progress false) ;;
  for_each (ball_switches c)
    (fun switch => emit (Remove_switch_handler self switch cb_eject_success)) ;;
  (if String.eqb (confirm_eject_type c) "switch"
   then
     match confirm_eject_switch c with
     | None => raise (AttributeError "name")
     | Some switch =>
         emit (Remove_switch_handler self switch cb_eject_success)
     end
   else ret tt) ;;
  emit (Delay_remove self "target_eject_confirmation_timeout") ;;
  emit (Delay_remove self "ball_missing_timeout") ;;
  emit (Delay_remove self "playfield_confirmation").

(** [eject_success] raises at its first statement; what follows the [raise]
    in the source follows it here. *)
Fixpoint eject_success (fuel : nat) (self : dev) : M unit :=
  (raise (AssertionError "do not use") : M unit) ;;
  match fuel with
  | O => out_of_fuel
  | S n =>
      s <- read self (fun s => s) ;;
      if _eject_success_condition s then ret tt
      else
        (if String.eqb (_state s) "waiting_for_ball_mechanical"
         then
           match _incoming_balls s with
           | [] => raise IndexError
           | (_, source) :: _ =>
               eject_success n source ;;
               s <- read self (fun s => s) ;;
               (match eject_queue s with
                | _ :: rest => modify self (set_eject_queue rest)
                | [] =>
                    match eject_in_progress_target s with
                    | None => raise (AttributeError "available_balls")
                    | Some t =>
                        modify t (fun s =>
                          set_available_balls (available_balls s + 1) s)
                    end
                end) ;;
               incoming <- read self _incoming_balls ;;
               match incoming with
               | [] => raise IndexError
               | _ :: incoming => modify self (set_incoming_balls incoming)
               end
           end
         else if negb (String.eqb (confirm_eject_type (config w self))
                         "target")
         then
           _notify_target_of_incoming_ball self (eject_in_progress_target s)
         else ret tt) ;;
        modify self (set_eject_success_condition true) ;;
        eject_target <- read self eject_in_progress_target ;;
        modify self (set_num_eject_attempts 0) ;;
        modify self (set_eject_in_progress_target None) ;;
        _cancel_eject_confirmation self ;;
        post (ball_eject_success self 1 eject_target)
  end.

Definition _playfield_active (fuel : nat) (self : dev) : M bool :=
  eject_success fuel self ;;
  ret false.

(** *** The eject state machine *)

Definition _perform_eject (self : dev) (target : option dev) : M unit :=
  match target with
  | None => raise (AttributeError "name")
  | Some _ =>
      s <- read self (fun s => s) ;;
      post (ejecting_ball self 1 (eject_in_progress_target s)
              (mechanical_eject_in_progress s) (num_eject_attempts s))
  end.

Definition _do_eject_attempt (self : dev) : M unit :=
  s <- read self (fun s => s) ;;
  post (ball_eject_attempt self 1 (eject_in_progress_target s)
          (mechanical_eject_in_progress s) (num_eject_attempts s)) ;;
  target <- read self eject_in_progress_target ;;
  _perform_eject self target.

Definition _inform_target_about_failed_confirm (self : dev)
  (target : option dev) (nballs : Z) (retry : bool) : M unit :=
  attempts <- read self num_eject_attempts ;;
  post (ball_eject_failed self target nballs retry attempts).

Definition eject_failed (self : dev) (retry : bool) : M unit :=
  assign_state self "eject_failed" ;;
  (if retry
   then
     modify self (fun s =>
       set_eject_queue
         ((eject_in_progress_target s, mechanical_eject_in_progress s,
           trigger_event s) :: eject_queue s) s)
   else ret tt) ;;
  target <- read self eject_in_progress_target ;;
  modify self (set_eject_in_progress_target None) ;;
  _cancel_eject_confirmation self ;;
  _inform_target_about_failed_confirm self target 1 retry.

Definition _eject_permanently_failed (self : dev) : M unit :=
  post (ball_eject_permanent_failure self).

Definition _eject_broken (self : dev) : M unit :=
  assign_state self "eject_broken" ;;
  post (eject_broken self).

Definition _balls_missing (self : dev) (nballs : Z) : M unit :=
  post (n_ball_missing (Z.abs nballs)) ;;
  post (ball_missing (Z.abs nballs)) ;;
  emit (Add_missing_balls (ball_missing_target (config w self)) nballs).

Definition _ball_missing_timout (self : dev) : M unit :=
  st <- read self _state ;;
  check (negb (String.eqb st "failed_confirm"))
    (String.append "Invalid state " st) ;;
  (if String.eqb (confirm_eject_type (config w self)) "target"
   then
     target <- read self eject_in_progress_target ;;
     _cancel_incoming_ball_at_target self target
   else ret tt) ;;
  eject_failed self false ;;
  _balls_missing self 1 ;;
  modify self (set_eject_in_progress_target None).

(* the ejector built by _configure_targets: a pulse coil ejector, else a
   hold coil ejector, else none *)
Definition has_ejector (self : dev) : bool :=
  truthy (eject_coil (config w self)) || truthy (hold_coil (config w self)).

(* config['jam_switch'] and switch_controller.is_active(jam_switch) *)
Definition jam_switch_is_active (self : dev) : M bool :=
  match jam_switch (config w self) with
  | None => ret false
  | Some switch => is_active switch
  end.

(* machine.events.wait_for_event(trigger_event) *)
Definition wait_for_event (self : dev) : M unit :=
  a <- await self ;;
  match a with
  | Woke TriggerEvent => ret tt
  | _ => suspend
  end.

Fixpoint _ejecting (fuel : nat) (self : dev) {struct fuel} : M unit :=
  assign_state self "ejecting" ;;
  match fuel with
  | O => out_of_fuel
  | S n =>
      q <- read self eject_queue ;;
      match q with
      | [] => raise IndexError
      | (target, mechanical, trigger) :: rest =>
          modify self (fun s =>
            set_trigger_event trigger
              (set_mechanical_eject_in_progress mechanical
                 (set_eject_in_progress_target target
                    (set_eject_queue rest s)))) ;;
          (* the log line of the source reads the name of the target *)
          (match target with
           | None => raise (AttributeError "name")
           | Some _ => ret tt
           end) ;;
          modify self (fun s =>
            set_num_eject_attempts (num_eject_attempts s + 1) s) ;;
          jam <- jam_switch_is_active self ;;
          modify self (set_jam_switch_state_during_eject jam) ;;
          (if negb (truthy_str trigger) || mechanical
           then _do_eject_attempt self else ret tt) ;;
          (if truthy_str trigger && negb mechanical
           then wait_for_event self ;; _do_eject_attempt self
           else ret tt) ;;
          _wait_for_ball_left n self
      end
  end

with _wait_for_ball_left (fuel : nat) (self : dev) {struct fuel} : M unit :=
  match fuel with
  | O => out_of_fuel
  | S n =>
      let c := config w self in
      s <- read self (fun s => s) ;;
      timeout <-
        (if negb (mechanical_eject_in_progress s)
         then
           t <- lookup (eject_in_progress_target s) (eject_timeouts c) ;;
           ret (Some t)
         else ret None) ;;
      t0 <- get_time ;;
      let timeout_time := option_map (fun t => t0 + t) timeout in
      trigger <-
        (if has_ejector self
         then
           if mechanical_eject_in_progress s
           then ret (truthy_str (trigger_event s))
           else emit (Eject_one_ball self) ;; ret false
         else ret false) ;;
      a <- await self ;;
      match a with
      | Woke Timeout =>
          if truthy timeout then _failed_eject n self else suspend
      | Woke TriggerEvent =>
          if trigger
          then emit (Eject_one_ball self) ;; _wait_for_ball_left n self
          else suspend
      | Woke BallLeft =>
          (* self.balls -= 1 *)
          held <- read self balls ;;
          assign_balls self (held - 1) ;;
          emit (Ejecting_one_ball self) ;;
          timeout_time <-
            (if mechanical_eject_in_progress s
             then
               t <- lookup (eject_in_progress_target s) (eject_timeouts c) ;;
               t1 <- get_time ;;
               ret (Some (t1 + t))
             else ret timeout_time) ;;
          _ball_left n self timeout_time
      | _ => suspend
      end
  end

with _ball_left (fuel : nat) (self : dev) (timeout_time : option Z)
  {struct fuel} : M unit :=
  assign_state self "ball_left" ;;
  match fuel with
  | O => out_of_fuel
  | S n =>
      let c := config w self in
      target <- read self eject_in_progress_target ;;
      _setup_eject_confirmation self target ;;
      s <- read self (fun s => s) ;;
      post (ball_left self 1 (eject_in_progress_target s)
              (num_eject_attempts s)) ;;
      (if String.eqb (confirm_eject_type c) "target"
       then _notify_target_of_incoming_ball self (eject_in_progress_target s)
       else ret tt) ;;
      (match eject_in_progress_target s with
       | None => raise (AttributeError "is_playfield")
       | Some t =>
           if is_playfield w t
           then
             timeout <- lookup (Some t) (eject_timeouts c) ;;
             emit (Delay_add self "playfield_confirmation" (timeout + 500)
                     cb_eject_success)
           else ret tt
       end) ;;
      t0 <- get_time ;;
      let timeout :=
        match timeout_time with
        | Some t => if t =? 0 then None else Some (t - t0)
        | None => None
        end in
      a <- await self ;;
      confirmed <- read self _eject_success_condition ;;
      if confirmed then ret tt
      else
        match a with
        | Woke Timeout =>
            if truthy timeout then _failed_confirm n self else suspend
        | _ => suspend
        end
  end

with _failed_confirm (fuel : nat) (self : dev) {struct fuel} : M unit :=
  assign_state self "failed_confirm" ;;
  match fuel with
  | O => out_of_fuel
  | S n =>
      target <- read self eject_in_progress_target ;;
      timeout <-
        lookup target (ball_missing_timeouts (config w self)) ;;
      _failed_confirm_loop n self timeout
  end

with _failed_confirm_loop (fuel : nat) (self : dev) (timeout : Z)
  {struct fuel} : M unit :=
  match fuel with
  | O => out_of_fuel
  | S n =>
      let c := config w self in
      nballs <- count_balls self ;;
      s <- read self (fun s => s) ;;
      if _eject_success_condition s then ret tt
      else
        jam <-
          (if truthy (jam_switch c) && negb (jam_switch_state_during_eject s)
           then jam_switch_is_active self else ret false) ;;
        if jam
        then
          (if String.eqb (confirm_eject_type c) "target"
           then
             _cancel_incoming_ball_at_target self (eject_in_progress_target s)
           else ret tt) ;;
          (* self.balls += 1 *)
          held <- read self balls ;;
          assign_balls self (held + 1) ;;
          _failed_eject n self
        else if balls s <? nballs
        then
          (if String.eqb (confirm_eject_type c) "target"
           then
             _cancel_incoming_ball_at_target self (eject_in_progress_target s)
           else ret tt) ;;
          (* self.balls += 1 *)
          held <- read self balls ;;
          assign_balls self (held + 1) ;;
          _failed_eject n self
        else
          a <- await self ;;
          confirmed <- read self _eject_success_condition ;;
          if confirmed then ret tt
          else
            match a with
            | Woke Timeout => _ball_missing_timout self
            | Woke BallActivity => _failed_confirm_loop n self timeout
            | _ => suspend
            end
  end

with _failed_eject (fuel : nat) (self : dev) {struct fuel} : M unit :=
  assign_state self "failed_eject" ;;
  match fuel with
  | O => out_of_fuel
  | S n =>
      let c := config w self in
      eject_failed self true ;;
      attempts <- read self num_eject_attempts ;;
      if negb (max_eject_attempts c =? 0)
         && (max_eject_attempts c <=? attempts)
      then _eject_permanently_failed self ;; _eject_broken self
      else _ejecting n self
  end.

(** *** Waiting for a ball, and the idle handler *)

Definition _cancel_eject (self : dev) : M unit :=
  q <- read self eject_queue ;;
  match q with
  | [] => raise IndexError
  | (target, _, _) :: rest =>
      modify self (set_eject_queue rest) ;;
      post (ball_lost self target)
  end.

Definition _handle_lost_incoming_ball (self : dev) : M unit :=
  available <- read self available_balls ;;
  if 0 <? available
  then modify self (fun s => set_available_balls (available_balls s - 1) s)
  else
    q <- read self eject_queue ;;
    match q with
    | [] => raise (AssertionError "Should have eject_queue")
    | _ :: _ => _cancel_eject self
    end.

Definition _handle_missing_balls (fuel : nat) (self : dev) (nballs : Z)
  : M unit :=
  let c := config w self in
  assign_state self "missing_balls" ;;
  if mechanical_eject c
  then
    modify self (set_mechanical_eject_in_progress true) ;;
    match eject_targets c with
    | [] => raise IndexError
    | target :: _ =>
        modify self (set_eject_in_progress_target (Some target)) ;;
        modify target (fun s =>
          set_available_balls (available_balls s + 1) s) ;;
        _do_eject_attempt self ;;
        _ball_left fuel self None
    end
  else _balls_missing self nballs.

Fixpoint _waiting_for_ball_mechanical_loop (fuel : nat) (self : dev)
  : M bool :=
  assign_state self "waiting_for_ball_mechanical" ;;
  match fuel with
  | O => out_of_fuel
  | S n =>
      nballs <- count_balls self ;;
      s <- read self (fun s => s) ;;
      if nballs <? balls s
      then raise (AssertionError "We dont have balls but lose one!")
      else if balls s <? nballs
      then
        modify self (set_eject_in_progress_target None) ;;
        _cancel_incoming_ball_at_target self (eject_in_progress_target s) ;;
        _cancel_eject_confirmation self ;;
        _inform_target_about_failed_confirm self
          (eject_in_progress_target s) 1 true ;;
        ret true
      else
        a <- await self ;;
        confirmed <- read self _eject_success_condition ;;
        if confirmed then ret true
        else
          match a with
          | Woke SourceEjectFailure =>
              _cancel_incoming_ball_at_target self
                (eject_in_progress_target s) ;;
              _cancel_eject_confirmation self ;;
              _cancel_eject self ;;
              ret true
          | Woke SourceEjectFailureRetry =>
              _cancel_incoming_ball_at_target self
                (eject_in_progress_target s) ;;
              _cancel_eject_confirmation self ;;
              ret false
          | Woke BallActivity => _waiting_for_ball_mechanical_loop n self
          | _ => suspend
          end
  end.

Definition _waiting_for_ball_mechanical (fuel : nat) (self : dev) : M bool :=
  assign_state self "waiting_for_ball_mechanical" ;;
  q <- read self eject_queue ;;
  target <-
    match q with
    | (target, _, _) :: _ => ret target
    | [] =>
        match eject_targets (config w self) with
        | [] => raise IndexError
        | target :: _ => ret (Some target)
        end
    end ;;
  modify self (set_eject_in_progress_target target) ;;
  modify self (set_mechanical_eject_in_progress true) ;;
  modify self (fun s => set_num_eject_attempts (num_eject_attempts s + 1) s) ;;
  _notify_target_of_incoming_ball self target ;;
  _do_eject_attempt self ;;
  target <- read self eject_in_progress_target ;;
  _setup_eject_confirmation self target ;;
  _waiting_for_ball_mechanical_loop fuel self.

Fixpoint _waiting_for_ball (fuel : nat) (self : dev) : M unit :=
  assign_state self "waiting_for_ball" ;;
  match fuel with
  | O => out_of_fuel
  | S n =>
      nballs <- count_balls self ;;
      s <- read self (fun s => s) ;;
      if nballs <? balls s
      then raise (AssertionError "We did not have balls but lost one!")
      else if balls s <? nballs then ret tt
      else
        a <- await self ;;
        match a with
        | Woke SourceEjectFailure => _cancel_eject self
        | Woke IncomingBallTimeout | Woke IncomingBallLost =>
            match _incoming_balls s with
            | _ :: _ => _handle_lost_incoming_ball self
            | [] => suspend
            end
        | Woke IncomingBall =>
            if mechanical_eject (config w self)
            then
              done <- _waiting_for_ball_mechanical n self ;;
              if done then ret tt else _waiting_for_ball n self
            else _waiting_for_ball n self
        | Woke BallActivity => _waiting_for_ball n self
        | _ => suspend
        end
  end.

(* target.get_additional_ball_capacity(), for a device or a playfield *)
Definition additional_ball_capacity_of (target : option dev) : M Z :=
  match target with
  | None => raise (AttributeError "get_additional_ball_capacity")
  | Some t =>
      if is_playfield w t then ret (playfield_additional_ball_capacity w t)
      else fun m => Ok (get_additional_ball_capacity t m) m
  end.

Definition _check_eject_queue (fuel : nat) (self : dev) : M bool :=
  q <- read self eject_queue ;;
  match q with
  | (target, _, _) :: _ =>
      capacity <- additional_ball_capacity_of target ;;
      if negb (capacity =? 0) then _ejecting fuel self ;; ret true
      else ret false
  | [] => ret false
  end.

Definition _handle_eject_queue (fuel : nat) (self : dev) : M bool :=
  q <- read self eject_queue ;;
  match q with
  | _ :: _ =>
      modify self (set_num_eject_attempts 0) ;;
      nballs <- read self balls ;;
      if 0 <? nballs then _check_eject_queue fuel self
      else _waiting_for_ball fuel self ;; ret true
  | [] => ret false
  end.

Definition _ok_to_receive (self : dev) : M unit :=
  fun m => post (ok_to_receive self (get_additional_ball_capacity self m)) m.

(* while len(_incoming_balls) and _incoming_balls[0][0] <= get_time(): *)
Fixpoint expire_incoming_balls (self : dev) (incoming : list (Z * dev))
  (missing_balls : Z) : M Z :=
  match incoming with
  | [] => ret missing_balls
  | (deadline, _) :: rest =>
      t <- get_time ;;
      if deadline <=? t
      then
        modify self (set_incoming_balls rest) ;;
        (* self._handle_lost_incoming_ball(), without [yield from] *)
        create_coroutine (_handle_lost_incoming_ball self) ;;
        expire_incoming_balls self rest (missing_balls + 1)
      else ret missing_balls
  end.

Definition _handle_ball_changes (fuel : nat) (self : dev) (nballs : Z)
  : M bool :=
  mine <- read self balls ;;
  check (mine <? 0) "Ball count went negative" ;;
  if nballs <? mine
  then
    assign_balls self nballs ;;
    _handle_missing_balls fuel self (mine - nballs) ;;
    ret true
  else
    (if mine <? nballs
     then
       assign_balls self nballs ;;
       (* the class has no method _handle_new_balls *)
       raise (AttributeError "_handle_new_balls")
     else ret tt) ;;
    incoming <- read self _incoming_balls ;;
    missing_balls <- expire_incoming_balls self incoming 0 ;;
    if 0 <? missing_balls
    then _handle_missing_balls fuel self missing_balls ;; ret true
    else
      capacity <- (fun m => Ok (get_additional_ball_capacity self m) m) ;;
      s <- read self (fun s => s) ;;
      unblocked <-
        (if negb (capacity =? 0)
            && (negb (truthy (hd_error (eject_queue s))) || (balls s =? 0))
         then
           match _blocked_eject_attempts s with
           | source :: blocked =>
               modify self (set_blocked_eject_attempts blocked) ;;
               emit (Clear_wait_queue self source) ;;
               _waiting_for_ball fuel self ;;
               ret true
           | [] => _ok_to_receive self ;; ret false
           end
         else ret false) ;;
      if unblocked then ret true else _handle_eject_queue fuel self.

End BallDevice.

(** ** Requests for balls and ejects on demand *)

Definition set_ball_requests (v : list (dev * bool)) (s : Device) : Device :=
  mkDevice (_state s) (balls s) (available_balls s) (eject_queue s)
    (num_eject_attempts s) (eject_in_progress_target s)
    (mechanical_eject_in_progress s) (trigger_event s)
    (jam_switch_state_during_eject s) (_incoming_balls s)
    (_blocked_eject_attempts s) v (eject_start_time s)
    (_eject_request_condition s) (_eject_success_condition s).

(* the value of a search, [None] for [False] *)
Definition search_result {A} (r : search A) : M (option A) :=
  match r with
  | Found a => ret (Some a)
  | NotFound => ret None
  | Exhausted => out_of_fuel
  end.

(* for dummy_iterator in range(n): body *)
Fixpoint repeat_times {A} (n : nat) (body : M A) : M unit :=
  match n with
  | O => ret tt
  | S n => body ;; repeat_times n body
  end.

Section Requests.

Variable w : World.

Definition _setup_or_queue_eject_to_target (fuel : nat) (self target : dev)
  (player_controlled : bool) : M bool :=
  path_to_target <- search_result (find_path_to_target w fuel self target) ;;
  available <- read self available_balls ;;
  path <-
    (if (0 <? available) && negb (String.eqb self target)
     then ret (Some path_to_target)
     else
       found_path <-
         (fun m =>
            search_result (find_one_available_ball w fuel m self []) m) ;;
       match found_path with
       | None =>
           (* put into queue here *)
           modify self (fun s =>
             set_ball_requests
               (ball_requests s ++ [(target, player_controlled)]) s) ;;
           ret None
       | Some path =>
           if negb (String.eqb target self)
           then
             check (negb (mem target (eject_targets (config w self))))
               (String.append "Do not know how to eject to " target) ;;
             match path_to_target with
             | None => raise (AttributeError "popleft")
             | Some [] => raise IndexError
             | Some (_ :: rest) => ret (Some (Some (path ++ rest)))
             end
           else ret (Some (Some path))
       end) ;;
  match path with
  | None => ret false
  (* path[0] on False: a TypeError in Python, recorded under the name of the
     method that False lacks *)
  | Some None => raise (AttributeError "__getitem__")
  | Some (Some []) => raise IndexError
  | Some (Some (source :: rest)) =>
      setup_eject_chain w source (source :: rest) player_controlled ;;
      ret true
  end.

Definition request_ball (fuel : nat) (self : dev) (nballs : Z) : M Z :=
  repeat_times (Z.to_nat nballs)
    (_setup_or_queue_eject_to_target fuel self self false) ;;
  ret nballs.

(* the method [eject]; its name is taken by the type of the queue entries *)
Definition eject_balls (fuel : nat) (self : dev) (nballs : Z)
  (target : option dev) : M unit :=
  let target :=
    match target with
    | Some t => t
    | None => _target_on_unexpected_ball (config w self)
    end in
  repeat_times (Z.to_nat nballs)
    (_setup_or_queue_eject_to_target fuel self target false).

Definition eject_all (fuel : nat) (self : dev) (target : option dev)
  : M bool :=
  available <- read self available_balls ;;
  if 0 <? available
  then eject_balls fuel self available target ;; ret true
  else ret false.

(* returns False when a request was served, None otherwise *)
Definition _source_device_balls_available (fuel : nat) (self : dev)
  : M (option bool) :=
  requests <- read self ball_requests ;;
  match requests with
  | (target, player_controlled) :: rest =>
      modify self (set_ball_requests rest) ;;
      served <-
        _setup_or_queue_eject_to_target fuel self target player_controlled ;;
      if served then ret (Some false) else ret None
  | [] => ret None
  end.

End Requests.

(** ** Loading the configuration *)

(** The keys that [_parse_config] rewrites, as the configuration file gives
    them: the timeouts are lists of time strings, one per eject target, and
    the capacity may be missing. *)
Record Unparsed := mkUnparsed {
  unparsed_eject_targets : list dev;
  unparsed_ball_switches : list string;
  unparsed_eject_timeouts : list string;
  unparsed_ball_missing_timeouts : list string;
  unparsed_ball_capacity : option Z
}.

Record Parsed := mkParsed {
  parsed_eject_timeouts : list (dev * Z);
  parsed_ball_missing_timeouts : list (dev * Z);
  parsed_ball_capacity : Z
}.

(* d[k] = v: a key that is present keeps its place *)
Fixpoint dict_set (k : dev) (v : Z) (d : list (dev * Z)) : list (dev * Z) :=
  match d with
  | [] => [(k, v)]
  | (k', v') :: rest =>
      if String.eqb k k' then (k, v) :: rest
      else (k', v') :: dict_set k v rest
  end.

(* timeouts += [default] * (len(targets) - len(timeouts)) *)
Definition pad (default : string) (n : nat) (l : list string)
  : list string :=
  l ++ repeat default (n - List.length l).

(* for i in range(len(targets)): d[targets[i]] = string_to_ms(timeouts[i]) *)
Fixpoint fill_timeouts (string_to_ms : string -> Z) (targets : list dev)
  (timeouts : list string) (d : list (dev * Z)) : list (dev * Z) :=
  match targets, timeouts with
  | t :: targets, s :: timeouts =>
      fill_timeouts string_to_ms targets timeouts
        (dict_set t (string_to_ms s) d)
  | _, _ => d
  end.

(** [Util.string_to_ms] is outside this file and is a parameter here. *)
Definition _parse_config (string_to_ms : string -> Z) (c : Unparsed)
  : Parsed :=
  let targets := unparsed_eject_targets c in
  {| parsed_eject_timeouts :=
       fill_timeouts string_to_ms targets
         (pad "10s" (List.length targets) (unparsed_eject_timeouts c)) [];
     parsed_ball_missing_timeouts :=
       fill_timeouts string_to_ms targets
         (pad "20s" (List.length targets) (unparsed_ball_missing_timeouts c))
         [];
     parsed_ball_capacity :=
       match unparsed_ball_capacity c with
       | Some n => n
       | None => Z.of_nat (List.length (unparsed_ball_switches c))
       end |}.

(** ** Specification vocabulary *)

(** The capacity the specification advertises:
    ball_capacity - held - |incoming| - (1 if an eject is in progress). *)
Definition advertised_capacity (w : World) (self : dev) (m : Machine) : Z :=
  ball_capacity (config w self)
  - balls (devices m self)
  - Z.of_nat (List.length (_incoming_balls (devices m self)))
  - (if truthy (eject_in_progress_target (devices m self)) then 1 else 0).

Definition is_trough (w : World) (d : dev) : Prop :=
  mem "trough" (tags w d) = true.

(** [reaches w n self t]: [n] ejects lead from [self] to [t], every device
    on the way after [self] being no playfield. *)
Inductive reaches (w : World) : nat -> dev -> dev -> Prop :=
| reaches_self self : reaches w 0 self self
| reaches_hop n self hop t :
    In hop (eject_targets (config w self)) ->
    is_playfield w hop = false ->
    reaches w n hop t ->
    reaches w (S n) self t.

(** The trough a depth-first walk meets first: the device itself, or the
    first trough met from the leftmost eject target that leads to one. *)
Inductive first_trough (w : World) : dev -> dev -> Prop :=
| first_trough_self self :
    is_trough w self -> first_trough w self self
| first_trough_hop self before hop after t :
    ~ is_trough w self ->
    eject_targets (config w self) = before ++ hop :: after ->
    is_playfield w hop = false ->
    (forall x, In x before -> is_playfield w x = false ->
       forall n t', reaches w n x t' -> ~ is_trough w t') ->
    first_trough w hop t ->
    first_trough w self t.

(** [route w self target p]: [p] leads from [self] to [target] along eject
    targets, and no device strictly inside [p] is a playfield. *)
Inductive route (w : World) : dev -> dev -> list dev -> Prop :=
| route_direct self target :
    In target (eject_targets (config w self)) ->
    route w self target [self; target]
| route_hop self hop target p :
    In hop (eject_targets (config w self)) ->
    is_playfield w hop = false ->
    route w hop target p ->
    route w self target (self :: p).

(** The route [find_path_to_target] prefers: the direct eject when the
    target is an eject target of the device, else the preferred route of the
    leftmost eject target that has a route at all. *)
Inductive first_route (w : World) : dev -> dev -> list dev -> Prop :=
| first_route_direct self target :
    In target (eject_targets (config w self)) ->
    first_route w self target [self; target]
| first_route_hop self target before hop after p :
    ~ In target (eject_targets (config w self)) ->
    eject_targets (config w self) = before ++ hop :: after ->
    is_playfield w hop = false ->
    (forall x, In x before -> is_playfield w x = false ->
       forall q, ~ route w x target q) ->
    first_route w hop target p ->
    first_route w self target (self :: p).

(** The devices strictly inside a path. *)
Definition intermediate (p : list dev) : list dev := removelast (tl p).

(** A graph is ranked when every eject to a device that is no playfield
    lowers the rank: the eject targets then form a directed acyclic graph. *)
Definition ranked (w : World) (rank : dev -> nat) : Prop :=
  forall d t,
    In t (eject_targets (config w d)) ->
    is_playfield w t = false ->
    (rank t < rank d)%nat.

(** Modelled after the words of the specification: a depth-first search
    that visits the eject targets left to right and returns the first path
    it finds, never walking through a playfield. *)
Fixpoint depth_first_path (w : World) (fuel : nat) (self target : dev)
  : search (list dev) :=
  match fuel with
  | O => Exhausted
  | S n =>
      (fix visit (targets : list dev) : search (list dev) :=
         match targets with
         | [] => NotFound
         | t :: rest =>
             if String.eqb t target then Found [self; t]
             else if is_playfield w t then visit rest
             else
               match depth_first_path w n t target with
               | Found path => Found (self :: path)
               | NotFound => visit rest
               | Exhausted => Exhausted
               end
         end) (eject_targets (config w self))
  end.

(** The queue entry [setup_eject_chain_next_hop] appends at [self] for an
    eject to [next_hop]. *)
Definition chain_entry (w : World) (player_controlled : bool)
  (self next_hop : dev) : eject :=
  let c := config w self in
  if player_controlled
     && (mechanical_eject c || truthy_str (player_controlled_eject_event c))
  then (Some next_hop, mechanical_eject c, player_controlled_eject_event c)
  else (Some next_hop, false, None).

(** The entries a chain along [self :: path] appends, with the device that
    receives each, in the order of the appends. *)
Fixpoint chain_entries (w : World) (player_controlled : bool) (self : dev)
  (path : list dev) : list (dev * eject) :=
  match path with
  | [] => []
  | next_hop :: rest =>
      (self, chain_entry w player_controlled self next_hop)
      :: chain_entries w player_controlled next_hop rest
  end.

Definition entries_of (d : dev) (l : list (dev * eject)) : list eject :=
  map snd (filter (fun e => String.eqb (fst e) d) l).

(** Whether a run returned, without exception and without suspending. *)
Definition returns {A} (r : result A) : bool :=
  match r with
  | Ok _ _ => true
  | _ => false
  end.

(** The exception a run ended in, if it ended in one. *)
Definition raised {A} (r : result A) : option exn :=
  match r with
  | Raise e _ => Some e
  | _ => None
  end.

(** What [_validate_config] demands of a confirmation by switch. *)
Definition valid_confirmation (c : Config) : Prop :=
  confirm_eject_type c = "switch" -> confirm_eject_switch c <> None.

(** [Sat R c]: every run of [c], however it ends, relates the machine it
    starts from to the machine it reaches. *)
Definition Sat {A} (R : Machine -> Machine -> Prop) (c : M A) : Prop :=
  forall m, R m (final (c m)).

(** *** Configurations, paths and handlers *)

(** What [_validate_config] demands of the configuration of a device; a
    pair [(t, v)] ranges over the entries of a timeout dict. *)
Definition well_configured (w : World) (fuel : nat) (self : dev) : Prop :=
  let c := config w self in
  (eject_coil c <> None \/ hold_coil c <> None \/ mechanical_eject c = true)
  /\ (mechanical_eject c = true -> (List.length (ball_switches c) <= 1)%nat)
  /\ eject_timeouts c <> []
  /\ ball_missing_timeouts c <> []
  /\ (forall t v, In (t, v) (eject_timeouts c) ->
      exit_count_delay c <= v /\ entrance_count_delay c <= v)
  /\ (forall t v t' v',
        In (t, v) (eject_timeouts c) ->
        In (t', v') (ball_missing_timeouts c) -> v <= v')
  /\ (forall t v, In (t, v) (ball_missing_timeouts c) -> v <= 60000)
  /\ valid_confirmation c
  /\ (mem "drain" (tags w self) = true ->
      mem "trough" (tags w self) = false ->
      exists trough, find_next_trough w fuel self = Found trough)
  /\ (mem "drain" (tags w self) = false ->
      mem "trough" (tags w self) = false ->
      exists path,
        find_path_to_target w fuel self (_target_on_unexpected_ball c)
        = Found path).

(** Every eject target of every device has an eject timeout, as
    [_parse_config] arranges. *)
Definition timeouts_cover (w : World) : Prop :=
  forall d t,
    In t (eject_targets (config w d)) ->
    dict_get t (eject_timeouts (config w d)) <> None.

(** A path is linked when each device on it ejects to the next one. *)
Fixpoint linked (w : World) (p : list dev) : Prop :=
  match p with
  | a :: (b :: _) as rest =>
      In b (eject_targets (config w a)) /\ linked w rest
  | _ => True
  end.

(** The available balls of the devices [l], added up. *)
Definition total_available (l : list dev) (m : Machine) : Z :=
  fold_right Z.add 0 (map (fun d => available_balls (devices m d)) l).

(** The effects a run added to the trace. *)
Definition emitted (m m' : Machine) : list effect :=
  skipn (List.length (trace m)) (trace m').

(** [undoes r e]: the effect [r] removes the handler or the delay that the
    effect [e] registered. *)
Inductive undoes : effect -> effect -> Prop :=
| undoes_handler d event_name cb :
    undoes (Remove_handler d cb) (Add_handler d event_name cb)
| undoes_switch_handler d switch cb :
    undoes (Remove_switch_handler d switch cb)
      (Add_switch_handler d switch cb)
| undoes_delay d name ms cb :
    undoes (Delay_remove d name) (Delay_add d name ms cb).

Definition registers (e : effect) : Prop :=
  match e with
  | Add_handler _ _ _ | Add_switch_handler _ _ _ | Delay_add _ _ _ _ => True
  | _ => False
  end.

(** [Emits P m m']: the run from [m] to [m'] only added effects that
    satisfy [P] to the trace. *)
Definition Emits (P : effect -> Prop) (m m' : Machine) : Prop :=
  exists t, trace m' = trace m ++ t /\ Forall P t.

(** The handlers and delays that [_cancel_eject_confirmation] of the device
    [self] removes. *)
Definition cancelled (w : World) (self : dev) (e : effect) : Prop :=
  (exists event_name cb, e = Add_handler self event_name cb)
  \/ (exists ms cb, e = Delay_add self "playfield_confirmation" ms cb)
  \/ (exists ms cb,
        e = Delay_add self "target_eject_confirmation_timeout" ms cb)
  \/ (exists switch,
        e = Add_switch_handler self switch cb_eject_success
        /\ confirm_eject_type (config w self) = "switch"
        /\ confirm_eject_switch (config w self) = Some switch).

(** ** Example machines *)

Definition base_config : Config :=
  {| eject_coil := Some "coil";
     hold_coil := None;
     mechanical_eject := false;
     ball_switches := ["switch"];
     ball_capacity := 1;
     exit_count_delay := 500;
     entrance_count_delay := 500;
     eject_targets := [];
     eject_timeouts := [];
     ball_missing_timeouts := [];
     max_eject_attempts := 3;
     confirm_eject_type := "target";
     confirm_eject_switch := None;
     confirm_eject_event := None;
     jam_switch := None;
     player_controlled_eject_event := None;
     _target_on_unexpected_ball := "playfield";
     ball_missing_target := "playfield";
     captures_from := "playfield" |}.

(* a device that ejects to [ts], with 10 s to eject and 20 s to miss a ball *)
Definition ejecting_to (ts : list dev) : Config :=
  {| eject_coil := Some "coil";
     hold_coil := None;
     mechanical_eject := false;
     ball_switches := ["switch"];
     ball_capacity := 1;
     exit_count_delay := 500;
     entrance_count_delay := 500;
     eject_targets := ts;
     eject_timeouts := map (fun t => (t, 10000)) ts;
     ball_missing_timeouts := map (fun t => (t, 20000)) ts;
     max_eject_attempts := 3;
     confirm_eject_type := "target";
     confirm_eject_switch := None;
     confirm_eject_event := None;
     jam_switch := None;
     player_controlled_eject_event := None;
     _target_on_unexpected_ball := "playfield";
     ball_missing_target := "playfield";
     captures_from := "playfield" |}.

Definition config_of (l : list (dev * Config)) (d : dev) : Config :=
  match find (fun p => String.eqb (fst p) d) l with
  | Some p => snd p
  | None => base_config
  end.

Definition world_of (l : list (dev * Config)) (troughs playfields : list dev)
  : World :=
  {| config := config_of l;
     tags := fun d => if mem d troughs then ["trough"] else [];
     is_playfield := fun d => mem d playfields;
     ball_devices := map fst l;
     playfield_additional_ball_capacity := fun _ => 999 |}.

Definition idle_device : Device :=
  {| _state := "idle";
     balls := 0;
     available_balls := 0;
     eject_queue := [];
     num_eject_attempts := 0;
     eject_in_progress_target := None;
     mechanical_eject_in_progress := false;
     trigger_event := None;
     jam_switch_state_during_eject := false;
     _incoming_balls := [];
     _blocked_eject_attempts := [];
     ball_requests := [];
     eject_start_time := None;
     _eject_request_condition := false;
     _eject_success_condition := false |}.

(* a device that holds [n] balls, all of them available *)
Definition holding (n : Z) : Device :=
  set_available_balls n (set_balls n idle_device).

Definition machine_of (l : list (dev * Device)) (script : list env_step)
  : Machine :=
  {| devices := fun d =>
       match find (fun p => String.eqb (fst p) d) l with
       | Some p => snd p
       | None => idle_device
       end;
     trace := [];
     inputs := script;
     now := 0;
     active_switches := [] |}.

(* A -> B -> C, the chain of the multi-hop scenario *)
Definition line_world : World :=
  world_of [("A", ejecting_to ["B"]); ("B", ejecting_to ["C"]);
            ("C", ejecting_to [])] ["A"] [].

(* A ejects to B and to C, and B ejects to C *)
Definition shortcut_world : World :=
  world_of [("A", ejecting_to ["B"; "C"]); ("B", ejecting_to ["C"]);
            ("C", ejecting_to [])] [] [].

(* A ejects to B and to the trough C; B ejects to the trough D *)
Definition two_troughs_world : World :=
  world_of [("A", ejecting_to ["B"; "C"]); ("B", ejecting_to ["D"]);
            ("C", ejecting_to []); ("D", ejecting_to [])] ["C"; "D"] [].

(* A and B eject to each other *)
Definition loop_world : World :=
  world_of [("A", ejecting_to ["B"]); ("B", ejecting_to ["A"])] [] [].

(* ranks for the example graphs; a device that is not listed has rank 0 *)
Definition rank_of (l : list (dev * nat)) (d : dev) : nat :=
  match find (fun p => String.eqb (fst p) d) l with
  | Some p => snd p
  | None => O
  end.

(* a plunger lane with one ball switch that ejects to the playfield *)
Definition plunger_config (eject hold : option string) (mechanical : bool)
  : Config :=
  {| eject_coil := eject;
     hold_coil := hold;
     mechanical_eject := mechanical;
     ball_switches := ["s_plunger"];
     ball_capacity := 1;
     exit_count_delay := 500;
     entrance_count_delay := 500;
     eject_targets := ["playfield"];
     eject_timeouts := [("playfield", 3000)];
     ball_missing_timeouts := [("playfield", 20000)];
     max_eject_attempts := 3;
     confirm_eject_type := "target";
     confirm_eject_switch := None;
     confirm_eject_event := None;
     jam_switch := None;
     player_controlled_eject_event := None;
     _target_on_unexpected_ball := "playfield";
     ball_missing_target := "playfield";
     captures_from := "playfield" |}.

Definition plunger_world (eject hold : option string) (mechanical : bool)
  : World :=
  world_of [("plunger", plunger_config eject hold mechanical)] []
    ["playfield"].

(* the machine [m] when the clock shows [t] *)
Definition machine_at (t : Z) (m : Machine) : Machine :=
  {| devices := devices m;
     trace := trace m;
     inputs := inputs m;
     now := t;
     active_switches := active_switches m |}.

(* a device with no ball of its own, an eject to [target] queued for the
   ball that [source] announced for the time [deadline] *)
Definition expecting (source : dev) (deadline : Z) (target : dev) : Device :=
  set_incoming_balls [(deadline, source)]
    (set_eject_queue [(Some target, false, None)] idle_device).

(* a device in the middle of its [attempts]-th eject to [target] *)
Definition ejecting_at (attempts : Z) (target : dev) : Device :=
  set_state "ejecting"
    (set_eject_in_progress_target (Some target)
       (set_num_eject_attempts attempts (set_balls 1 idle_device))).

(* D ejects to T; at time 2000 D holds no ball, has an eject to T queued
   and still expects the ball S announced for time 2000 *)
Definition lost_ball_world : World :=
  world_of [("D", ejecting_to ["T"])] [] [].

Definition lost_ball_machine (script : list env_step) : Machine :=
  machine_at 2000 (machine_of [("D", expecting "S" 2000 "T")] script).

(* A ejects to B, with [limit] as max_eject_attempts *)
Definition retry_config (limit : Z) : Config :=
  {| eject_coil := Some "coil";
     hold_coil := None;
     mechanical_eject := false;
     ball_switches := ["switch"];
     ball_capacity := 1;
     exit_count_delay := 500;
     entrance_count_delay := 500;
     eject_targets := ["B"];
     eject_timeouts := [("B", 3000)];
     ball_missing_timeouts := [("B", 20000)];
     max_eject_attempts := limit;
     confirm_eject_type := "target";
     confirm_eject_switch := None;
     confirm_eject_event := None;
     jam_switch := None;
     player_controlled_eject_event := None;
     _target_on_unexpected_ball := "playfield";
     ball_missing_target := "playfield";
     captures_from := "playfield" |}.

Definition retry_world (limit : Z) : World :=
  world_of [("A", retry_config limit)] [] [].

(* a device that holds one ball and has an eject to [target] queued *)
Definition about_to_eject (target : dev) : Device :=
  set_eject_queue [(Some target, false, None)] (holding 1).

(* a stand-in for Util.string_to_ms on the time strings of the examples *)
Definition seconds (s : string) : Z :=
  if String.eqb s "3s" then 3000
  else if String.eqb s "10s" then 10000
  else if String.eqb s "20s" then 20000
  else 0.

(* two eject targets, and an eject timeout for the first of them only *)
Definition short_timeouts : Unparsed :=
  {| unparsed_eject_targets := ["B"; "C"];
     unparsed_ball_switches := ["switch"];
     unparsed_eject_timeouts := ["3s"];
     unparsed_ball_missing_timeouts := [];
     unparsed_ball_capacity := None |}.

(* a device without a ball that waits for the balls it requested *)
Definition requesting (requests : list (dev * bool)) : Device :=
  set_ball_requests requests idle_device.

(** ** Capacity *)

Section Capacity.

Variable w : World.

Lemma get_additional_ball_capacity_max (self : dev) (m : Machine) :
  get_additional_ball_capacity w self m
  = Z.max 0 (advertised_capacity w self m).
Proof.
  unfold get_additional_ball_capacity, get_real_additional_capacity,
    advertised_capacity.
  destruct (truthy (eject_in_progress_target (devices m self)));
    match goal with |- context [?x <? 0] => destruct (Z.ltb_spec x 0) end;
    lia.
Qed.

(** C2, as the code has it: [get_additional_ball_capacity] returns
    ball_capacity minus the held balls minus the number of incoming balls
    minus 1 if an eject is in progress, or 0 when that difference is
    negative. *)
Theorem get_additional_ball_capacity_clamped (self : dev) (m : Machine) :
  get_additional_ball_capacity w self m
  = Z.max 0
      (ball_capacity (config w self)
       - balls (devices m self)
       - Z.of_nat (List.length (_incoming_balls (devices m self)))
       - (if truthy (eject_in_progress_target (devices m self))
          then 1 else 0)).
Proof. apply get_additional_ball_capacity_max. Qed.

(** C10: whatever the held balls, the incoming balls and the eject in
    progress, [get_additional_ball_capacity] is not negative, and it is 0
    whenever the capacity left after them is negative. *)
Theorem get_additional_ball_capacity_nonneg (self : dev) (m : Machine) :
  0 <= get_additional_ball_capacity w self m
  /\ (advertised_capacity w self m < 0 ->
      get_additional_ball_capacity w self m = 0).
Proof.
  rewrite get_additional_ball_capacity_max. split; lia.
Qed.

End Capacity.

(** C2 as stated fails: a device of capacity 1 that holds 2 balls has an
    advertised capacity of -1, and the code returns 0. *)
Lemma get_additional_ball_capacity_not_exact :
  let w := world_of [("A", ejecting_to ["B"])] [] [] in
  let m := machine_of [("A", holding 2)] [] in
  0 <= balls (devices m "A")
  /\ advertised_capacity w "A" m = -1
  /\ get_additional_ball_capacity w "A" m = 0
  /\ get_additional_ball_capacity w "A" m <> advertised_capacity w "A" m.
Proof. vm_compute. repeat split; congruence. Qed.

Lemma get_additional_ball_capacity_nonneg_witness :
  let w := world_of [("A", ejecting_to ["B"])] [] [] in
  let m := machine_of [("A", holding 2)] [] in
  advertised_capacity w "A" m < 0
  /\ get_additional_ball_capacity w "A" m = 0.
Proof.
  intros w m.
  assert (H : advertised_capacity w "A" m < 0) by (vm_compute; reflexivity).
  split; [exact H |].
  exact (proj2 (get_additional_ball_capacity_nonneg w "A" m) H).
Defined.

(** ** Routing *)

Section Searches.

Variable w : World.

Lemma mem_In (x : dev) (l : list dev) : mem x l = true <-> In x l.
Proof.
  unfold mem. rewrite existsb_exists. split.
  - intros [y [Hy He]]. apply String.eqb_eq in He. now subst.
  - intros H. exists x. split; [assumption | apply String.eqb_refl].
Qed.

Lemma mem_false (x : dev) (l : list dev) : mem x l = false <-> ~ In x l.
Proof.
  rewrite <- mem_In. destruct (mem x l); split; congruence.
Qed.

(** What the loop over the eject targets returns. *)
Lemma for_each_target_found {A} (skip : dev -> bool) (f : dev -> search A)
  (l : list dev) (a : A) :
  for_each_target skip f l = Found a ->
  exists before x after,
    l = before ++ x :: after /\ skip x = false /\ f x = Found a
    /\ forall y, In y before -> skip y = false -> f y = NotFound.
Proof.
  induction l as [| x l IH]; simpl; [discriminate |].
  destruct (skip x) eqn:Hs.
  - intros H. destruct (IH H) as (b & y & c & -> & Hy & Hf & Hb).
    exists (x :: b), y, c. repeat split; auto.
    intros z [-> | Hz] Hz'; [congruence | auto].
  - destruct (f x) eqn:Hf; try discriminate.
    + intros [= ->]. exists [], x, l. repeat split; auto.
      intros y [].
    + intros H. destruct (IH H) as (b & y & c & -> & Hy & Hfy & Hb).
      exists (x :: b), y, c. repeat split; auto.
      intros z [-> | Hz] Hz'; auto.
Qed.

Lemma for_each_target_not_found {A} (skip : dev -> bool)
  (f : dev -> search A) (l : list dev) :
  for_each_target skip f l = NotFound ->
  forall y, In y l -> skip y = false -> f y = NotFound.
Proof.
  induction l as [| x l IH]; simpl; [intros _ y [] |].
  destruct (skip x) eqn:Hs.
  - intros H y [-> | Hy] Hy'; [congruence | auto].
  - destruct (f x) eqn:Hf; try discriminate.
    intros H y [-> | Hy] Hy'; auto.
Qed.

Lemma for_each_target_exhausted {A} (skip : dev -> bool)
  (f : dev -> search A) (l : list dev) :
  for_each_target skip f l = Exhausted ->
  exists y, In y l /\ skip y = false /\ f y = Exhausted.
Proof.
  induction l as [| x l IH]; simpl; [discriminate |].
  destruct (skip x) eqn:Hs.
  - intros H. destruct (IH H) as (y & Hy & ?). exists y. auto.
  - destruct (f x) eqn:Hf; try discriminate.
    + intros H. destruct (IH H) as (y & Hy & ?). exists y. auto.
    + intros _. exists x. auto.
Qed.

(** *** find_next_trough *)

Lemma first_trough_sound self t :
  first_trough w self t -> is_trough w t /\ exists n, reaches w n self t.
Proof.
  induction 1 as [self H | self b hop a t Hn He Hp Hb Hf [IH1 [n IH2]]].
  - split; [assumption | exists 0%nat; constructor].
  - split; [assumption |]. exists (S n).
    apply reaches_hop with hop; auto.
    rewrite He. apply in_or_app. right. left. reflexivity.
Qed.

(** Whenever the search returns, it returns the first trough of the
    depth-first order, or [False] when no trough can be reached. *)
Lemma find_next_trough_correct (fuel : nat) :
  forall self,
    (forall t, find_next_trough w fuel self = Found t ->
               first_trough w self t)
    /\ (find_next_trough w fuel self = NotFound ->
        forall n t, reaches w n self t -> ~ is_trough w t).
Proof.
  induction fuel as [| fuel IH]; intros self; [split; discriminate |].
  simpl. destruct (mem "trough" (tags w self)) eqn:Ht.
  - split; [| discriminate]. intros t [= <-]. now constructor.
  - assert (Hnt : ~ is_trough w self) by (unfold is_trough; congruence).
    split.
    + intros t Hl. apply for_each_target_found in Hl.
      destruct Hl as (b & hop & a & He & Hp & Hf & Hb).
      apply first_trough_hop with b hop a; auto.
      * intros x Hx Hpx. apply (proj2 (IH x)). auto.
      * apply (proj1 (IH hop)). assumption.
    + intros Hl n t Hreach. inversion Hreach; subst; [assumption |].
      apply (proj2 (IH hop)) with n0; [| assumption].
      eapply for_each_target_not_found; eauto.
Qed.

(** On a ranked graph the search returns. *)
Lemma find_next_trough_returns (rank : dev -> nat) :
  ranked w rank ->
  forall fuel self, (rank self < fuel)%nat ->
    find_next_trough w fuel self <> Exhausted.
Proof.
  intros Hr. induction fuel as [| fuel IH]; intros self Hlt; [lia |].
  simpl. destruct (mem "trough" (tags w self)); [discriminate |].
  intros Hl. apply for_each_target_exhausted in Hl.
  destruct Hl as (y & Hy & Hp & Hf).
  specialize (Hr self y Hy Hp). apply (IH y); [lia | assumption].
Qed.

(** C9, as the code has it: on a graph whose eject targets form no cycle,
    [find_next_trough] returns the device itself when it is tagged trough,
    and otherwise the first trough of a depth-first walk through the eject
    targets in declared order, which need not be the nearest one; it never
    walks through a playfield, and it returns [False] exactly when no trough
    can be reached. *)
Theorem find_next_trough_first_trough (rank : dev -> nat) (fuel : nat)
  (self : dev) :
  ranked w rank ->
  (rank self < fuel)%nat ->
  (is_trough w self -> find_next_trough w fuel self = Found self)
  /\ ((exists t,
         find_next_trough w fuel self = Found t
         /\ first_trough w self t
         /\ is_trough w t
         /\ exists n, reaches w n self t)
      \/ (find_next_trough w fuel self = NotFound
          /\ forall n t, reaches w n self t -> ~ is_trough w t)).
Proof.
  intros Hr Hlt. split.
  - unfold is_trough. intros Ht. destruct fuel; [lia |].
    simpl. rewrite Ht. reflexivity.
  - pose proof (find_next_trough_returns rank Hr fuel self Hlt) as Hret.
    destruct (find_next_trough_correct fuel self) as [Hf Hn].
    destruct (find_next_trough w fuel self) as [t | |] eqn:E;
      [| | congruence].
    + left. exists t. specialize (Hf t eq_refl).
      destruct (first_trough_sound self t Hf) as [Ht Hn'].
      repeat split; assumption.
    + right. split; [reflexivity | exact (Hn eq_refl)].
Qed.

(** *** find_path_to_target *)

Lemma first_route_sound self target p :
  first_route w self target p -> route w self target p.
Proof.
  induction 1 as [| self target b hop a p Hn He Hp Hb Hf IH].
  - now constructor.
  - apply route_hop with hop; auto.
    rewrite He. apply in_or_app. right. now left.
Qed.

Lemma intermediate_snoc self mid target :
  intermediate (self :: mid ++ [target]) = mid.
Proof. unfold intermediate. simpl. apply removelast_last. Qed.

Lemma route_shape self target p :
  route w self target p ->
  exists mid,
    p = self :: mid ++ [target]
    /\ forall x, In x mid -> is_playfield w x = false.
Proof.
  induction 1 as [self target H
                 | self hop target p Hin Hp Hr [mid [-> IH]]].
  - exists []. split; [reflexivity | intros x []].
  - exists (hop :: mid). split; [reflexivity |].
    intros x [<- | Hx]; auto.
Qed.

Lemma find_path_to_target_correct (fuel : nat) (target : dev) :
  forall self,
    (forall p, find_path_to_target w fuel self target = Found p ->
               first_route w self target p)
    /\ (find_path_to_target w fuel self target = NotFound ->
        forall p, ~ route w self target p).
Proof.
  induction fuel as [| fuel IH]; intros self; [split; discriminate |].
  simpl. destruct (mem target (eject_targets (config w self))) eqn:Hd.
  - split; [| discriminate]. intros p [= <-].
    constructor. now apply mem_In.
  - apply mem_false in Hd. split.
    + intros p Hl. apply for_each_target_found in Hl.
      destruct Hl as (b & hop & a & He & Hp & Hf & Hb).
      destruct (find_path_to_target w fuel hop target) as [q | |] eqn:Hq;
        try discriminate.
      injection Hf as <-.
      apply first_route_hop with b hop a; auto.
      * intros x Hx Hpx. apply (proj2 (IH x)).
        specialize (Hb x Hx Hpx).
        destruct (find_path_to_target w fuel x target); congruence.
      * apply (proj1 (IH hop)). assumption.
    + intros Hl p Hroute. inversion Hroute; subst; [contradiction |].
      pose proof (for_each_target_not_found _ _ _ Hl hop H H0) as Hf.
      simpl in Hf.
      destruct (find_path_to_target w fuel hop target) eqn:Hq;
        try discriminate.
      exact (proj2 (IH hop) Hq _ H1).
Qed.

Lemma find_path_to_target_returns (rank : dev -> nat) (target : dev) :
  ranked w rank ->
  forall fuel self, (rank self < fuel)%nat ->
    find_path_to_target w fuel self target <> Exhausted.
Proof.
  intros Hr. induction fuel as [| fuel IH]; intros self Hlt; [lia |].
  simpl. destruct (mem target (eject_targets (config w self)));
    [discriminate |].
  intros Hl. apply for_each_target_exhausted in Hl.
  destruct Hl as (y & Hy & Hp & Hf).
  specialize (Hr self y Hy Hp).
  destruct (find_path_to_target w fuel y target) eqn:Hq; try discriminate.
  apply (IH y); [lia | assumption].
Qed.

(** C6, as the code has it: on a graph whose eject targets form no cycle,
    [find_path_to_target] returns the direct eject [self; target] as soon as
    the target is an eject target of the device, whatever its position in
    the list; otherwise it searches the eject targets depth-first in
    declared order and returns the first path found.  No device strictly
    inside the path is a playfield, and the result is [False] exactly when
    no path exists. *)
Theorem find_path_to_target_first_route (rank : dev -> nat) (fuel : nat)
  (self target : dev) :
  ranked w rank ->
  (rank self < fuel)%nat ->
  (In target (eject_targets (config w self)) ->
   find_path_to_target w fuel self target = Found [self; target])
  /\ ((exists p,
         find_path_to_target w fuel self target = Found p
         /\ first_route w self target p
         /\ p = self :: intermediate p ++ [target]
         /\ forall x, In x (intermediate p) -> is_playfield w x = false)
      \/ (find_path_to_target w fuel self target = NotFound
          /\ forall p, ~ route w self target p)).
Proof.
  intros Hr Hlt. split.
  - intros Hin. apply mem_In in Hin. destruct fuel; [lia |].
    simpl. rewrite Hin. reflexivity.
  - pose proof (find_path_to_target_returns rank target Hr fuel self Hlt)
      as Hret.
    destruct (find_path_to_target_correct fuel target self) as [Hf Hn].
    destruct (find_path_to_target w fuel self target) as [p | |] eqn:E;
      [| | congruence].
    + left. exists p. specialize (Hf p eq_refl).
      destruct (route_shape _ _ _ (first_route_sound _ _ _ Hf))
        as (mid & -> & Hmid).
      rewrite intermediate_snoc. repeat split; assumption.
    + right. split; [reflexivity | exact (Hn eq_refl)].
Qed.

(** *** find_one_available_ball *)

Lemma _source_devices_In self source :
  In source (_source_devices w self) ->
  In source (ball_devices w)
  /\ is_playfield w source = false
  /\ In self (eject_targets (config w source)).
Proof.
  unfold _source_devices. rewrite filter_In.
  intros [H1 H2]. apply andb_true_iff in H2. destruct H2 as [H2 H3].
  apply negb_true_iff in H2. apply mem_In in H3. auto.
Qed.

Lemma find_one_available_ball_found (m : Machine) (fuel : nat) :
  forall self path p,
    NoDup path ->
    find_one_available_ball w fuel m self path = Found p ->
    (exists pre, p = pre ++ self :: path)
    /\ NoDup p
    /\ (1 < List.length p)%nat
    /\ exists d rest, p = d :: rest /\ 0 < available_balls (devices m d).
Proof.
  induction fuel as [| fuel IH]; intros self path p Hnd; [discriminate |].
  simpl. destruct (mem self path) eqn:Hm; [discriminate |].
  apply mem_false in Hm.
  assert (Hnd' : NoDup (self :: path)) by now constructor.
  destruct ((0 <? available_balls (devices m self))
            && (1 <? S (List.length path))%nat) eqn:Hc.
  - intros [= <-]. apply andb_true_iff in Hc. destruct Hc as [Ha Hl].
    apply Z.ltb_lt in Ha. apply Nat.ltb_lt in Hl.
    repeat split; auto.
    + exists []. reflexivity.
    + exists self, path. auto.
  - intros Hl. apply for_each_target_found in Hl.
    destruct Hl as (b & source & a & He & _ & Hf & _).
    destruct (IH source (self :: path) p Hnd' Hf)
      as ((pre & ->) & Hp & Hlen & Hd).
    repeat split; auto.
    exists (pre ++ [source]). rewrite <- app_assoc. reflexivity.
Qed.

(** The search returns: a device is entered at most once on the way down,
    and every device but the requester is one of [machine.ball_devices]. *)
Lemma find_one_available_ball_returns (m : Machine) (requester : dev) :
  forall fuel self path,
    NoDup path ->
    incl path (requester :: ball_devices w) ->
    In self (requester :: ball_devices w) ->
    (S (List.length (ball_devices w)) - List.length path < fuel)%nat ->
    find_one_available_ball w fuel m self path <> Exhausted.
Proof.
  induction fuel as [| fuel IH]; intros self path Hnd Hincl Hin Hlt; [lia |].
  simpl. destruct (mem self path) eqn:Hm; [discriminate |].
  apply mem_false in Hm.
  destruct ((0 <? available_balls (devices m self))
            && (1 <? S (List.length path))%nat); [discriminate |].
  intros Hl. apply for_each_target_exhausted in Hl.
  destruct Hl as (source & Hs & _ & Hf).
  apply _source_devices_In in Hs. destruct Hs as (Hs & _).
  assert (Hnd' : NoDup (self :: path)) by now constructor.
  assert (Hincl' : incl (self :: path) (requester :: ball_devices w)).
  { intros x [<- | Hx]; auto. }
  pose proof (NoDup_incl_length Hnd' Hincl') as Hlen. simpl in Hlen.
  apply (IH source (self :: path)); auto.
  - now right.
  - simpl. lia.
Qed.

(** C7: a path returned by [find_one_available_ball] holds no device
    twice, the requester is its last element and occurs in it once, and its
    first device has an available ball. *)
Theorem find_one_available_ball_no_repeat (m : Machine) (fuel : nat)
  (self : dev) (p : list dev) :
  find_one_available_ball w fuel m self [] = Found p ->
  NoDup p
  /\ (exists pre, p = pre ++ [self])
  /\ count_occ string_dec p self = 1%nat
  /\ exists d rest, p = d :: rest /\ 0 < available_balls (devices m d).
Proof.
  intros H.
  destruct (find_one_available_ball_found m fuel self [] p (NoDup_nil _) H)
    as ((pre & ->) & Hnd & _ & Hd).
  repeat split; auto.
  - exists pre. reflexivity.
  - apply NoDup_count_occ'; [assumption |].
    apply in_or_app. right. now left.
Qed.

End Searches.

(** *** The searches on the example graphs *)

Section ExampleGraphs.

Local Arguments String.eqb : simpl never.

Ltac by_device d :=
  repeat match goal with
    | H : context [String.eqb ?a d] |- _ =>
        destruct (String.eqb_spec a d); [subst d |]; simpl in H
    end.

Ltac ranked_by_cases :=
  let d := fresh "d" in
  let t := fresh "t" in
  let Hin := fresh "Hin" in
  intros d t Hin _;
  unfold two_troughs_world, shortcut_world, line_world, world_of, config_of
    in Hin;
  simpl in Hin;
  by_device d;
  repeat (destruct Hin as [<- | Hin]; [vm_compute; lia |]);
  destruct Hin.

Lemma two_troughs_ranked :
  ranked two_troughs_world (rank_of [("A", 2%nat); ("B", 1%nat)]).
Proof. ranked_by_cases. Qed.

Lemma shortcut_ranked :
  ranked shortcut_world (rank_of [("A", 2%nat); ("B", 1%nat)]).
Proof. ranked_by_cases. Qed.

Lemma loop_trough_exhausts (fuel : nat) :
  find_next_trough loop_world fuel "A" = Exhausted
  /\ find_next_trough loop_world fuel "B" = Exhausted.
Proof.
  induction fuel as [| fuel [IHa IHb]]; [split; reflexivity |].
  split; simpl; cbn; [rewrite IHb | rewrite IHa]; reflexivity.
Qed.

Lemma loop_path_exhausts (fuel : nat) :
  find_path_to_target loop_world fuel "A" "C" = Exhausted
  /\ find_path_to_target loop_world fuel "B" "C" = Exhausted.
Proof.
  induction fuel as [| fuel [IHa IHb]]; [split; reflexivity |].
  split; simpl; cbn; [rewrite IHb | rewrite IHa]; reflexivity.
Qed.

Lemma loop_no_route (s t : dev) (p : list dev) :
  route loop_world s t p -> s = "A" \/ s = "B" -> t <> "C".
Proof.
  induction 1 as [s t Hin | s hop t p Hin Hp Hr IH]; intros Hs.
  - destruct Hs as [-> | ->]; vm_compute in Hin; destruct Hin as [<- | []];
      discriminate.
  - apply IH. destruct Hs as [-> | ->]; vm_compute in Hin;
      destruct Hin as [<- | []]; auto.
Qed.

Lemma two_troughs_far (n : nat) :
  reaches two_troughs_world n "A" "D" -> (2 <= n)%nat.
Proof.
  destruct n as [| [| n]]; intros H; [inversion H | | lia].
  inversion H as [| ? ? hop ? Hin _ Hr]; subst.
  inversion Hr; subst.
  vm_compute in Hin. destruct Hin as [Hin | [Hin | []]]; discriminate.
Qed.

End ExampleGraphs.

(** C9 as stated fails.  With A ejecting to B and to the trough C, and B
    ejecting to the trough D, the search from A returns D, two ejects away,
    although the trough C is one eject away.  And where two devices eject to
    each other and no trough exists, the search never returns. *)
Lemma find_next_trough_not_nearest :
  find_next_trough two_troughs_world 3 "A" = Found "D"
  /\ is_trough two_troughs_world "C"
  /\ reaches two_troughs_world 1 "A" "C"
  /\ (forall n, reaches two_troughs_world n "A" "D" -> (2 <= n)%nat)
  /\ (forall fuel, find_next_trough loop_world fuel "A" = Exhausted)
  /\ (forall n t, reaches loop_world n "A" t -> ~ is_trough loop_world t).
Proof.
  split; [reflexivity |]. split; [reflexivity |]. split.
  { apply reaches_hop with "C"; [vm_compute; auto | reflexivity |].
    constructor. }
  split; [exact two_troughs_far |]. split.
  { intros fuel. exact (proj1 (loop_trough_exhausts fuel)). }
  intros n t _. vm_compute. discriminate.
Qed.

Lemma find_next_trough_first_trough_witness :
  ranked two_troughs_world (rank_of [("A", 2%nat); ("B", 1%nat)])
  /\ (rank_of [("A", 2%nat); ("B", 1%nat)] "A" < 3)%nat
  /\ find_next_trough two_troughs_world 3 "A" = Found "D"
  /\ first_trough two_troughs_world "A" "D".
Proof.
  assert (H : (rank_of [("A", 2%nat); ("B", 1%nat)] "A" < 3)%nat)
    by (vm_compute; lia).
  assert (E : find_next_trough two_troughs_world 3 "A" = Found "D")
    by reflexivity.
  split; [exact two_troughs_ranked |]. split; [exact H |].
  split; [exact E |].
  destruct (find_next_trough_first_trough two_troughs_world _ 3 "A"
              two_troughs_ranked H) as [_ [(t & Hf & Ht & _) | [Hn _]]].
  - rewrite E in Hf. injection Hf as <-. exact Ht.
  - rewrite E in Hn. discriminate Hn.
Defined.

(** C6 as stated fails.  With A ejecting to B and to C, and B ejecting to C,
    a depth-first search through the eject targets in declared order finds
    A, B, C first; the code returns the direct eject A, C.  And where two
    devices eject to each other, a search for a target that no path leads to
    never returns. *)
Lemma find_path_to_target_not_depth_first :
  find_path_to_target shortcut_world 3 "A" "C" = Found ["A"; "C"]
  /\ depth_first_path shortcut_world 3 "A" "C" = Found ["A"; "B"; "C"]
  /\ (forall fuel, find_path_to_target loop_world fuel "A" "C" = Exhausted)
  /\ (forall p, ~ route loop_world "A" "C" p).
Proof.
  split; [reflexivity |]. split; [reflexivity |]. split.
  - intros fuel. exact (proj1 (loop_path_exhausts fuel)).
  - intros p Hr. exact (loop_no_route _ _ _ Hr (or_introl eq_refl) eq_refl).
Qed.

Lemma find_path_to_target_first_route_witness :
  ranked shortcut_world (rank_of [("A", 2%nat); ("B", 1%nat)])
  /\ (rank_of [("A", 2%nat); ("B", 1%nat)] "A" < 3)%nat
  /\ In "C" (eject_targets (config shortcut_world "A"))
  /\ find_path_to_target shortcut_world 3 "A" "C" = Found ["A"; "C"].
Proof.
  assert (H : (rank_of [("A", 2%nat); ("B", 1%nat)] "A" < 3)%nat)
    by (vm_compute; lia).
  assert (Hin : In "C" (eject_targets (config shortcut_world "A")))
    by (vm_compute; auto).
  split; [exact shortcut_ranked |]. split; [exact H |].
  split; [exact Hin |].
  exact (proj1 (find_path_to_target_first_route shortcut_world _ 3 "A" "C"
                  shortcut_ranked H) Hin).
Defined.

Lemma find_one_available_ball_no_repeat_witness :
  let m := machine_of [("A", holding 1)] [] in
  find_one_available_ball line_world 3 m "C" [] = Found ["A"; "B"; "C"]
  /\ NoDup ["A"; "B"; "C"]
  /\ count_occ string_dec ["A"; "B"; "C"] "C" = 1%nat.
Proof.
  intros m.
  assert (H : find_one_available_ball line_world 3 m "C" []
              = Found ["A"; "B"; "C"]) by reflexivity.
  destruct (find_one_available_ball_no_repeat line_world m 3 "C" _ H)
    as (Hnd & _ & Hc & _).
  repeat split; assumption.
Defined.

(** The search for an available ball returns on every graph, cyclic or
    not, once the fuel exceeds the number of devices. *)
Lemma find_one_available_ball_total (w : World) (m : Machine) (self : dev)
  (fuel : nat) :
  (S (List.length (ball_devices w)) < fuel)%nat ->
  find_one_available_ball w fuel m self [] <> Exhausted.
Proof.
  intros H. apply find_one_available_ball_returns with self.
  - constructor.
  - intros x [].
  - now left.
  - simpl. lia.
Qed.

(** ** Running the monad *)

Lemma bind_Ok {A B} (c : M A) (k : A -> M B) (m : Machine) (b : B)
  (m' : Machine) :
  bind c k m = Ok b m' ->
  exists a m1, c m = Ok a m1 /\ k a m1 = Ok b m'.
Proof.
  unfold bind. destruct (c m) as [a m1 | | |]; try discriminate.
  intros H. exists a, m1. split; [reflexivity | assumption].
Qed.

Lemma check_Ok (b : bool) (msg : string) (m : Machine) (u : unit)
  (m' : Machine) :
  check b msg m = Ok u m' -> b = false /\ m' = m.
Proof.
  unfold check. destruct b; [discriminate |].
  intros [= _ <-]. split; reflexivity.
Qed.

Lemma lookup_Ok (k : option dev) (d : list (dev * Z)) (m : Machine) (v : Z)
  (m' : Machine) :
  lookup k d m = Ok v m' -> m' = m.
Proof.
  unfold lookup. destruct k as [k |]; [| discriminate].
  destruct (dict_get k d); [| discriminate].
  intros [= _ <-]. reflexivity.
Qed.

Lemma devices_update (d : dev) (f : Device -> Device) (m : Machine)
  (x : dev) :
  devices (update_device d f m) x
  = if String.eqb x d then f (devices m x) else devices m x.
Proof. reflexivity. Qed.

Lemma returns_final (r : result unit) :
  returns r = true -> r = Ok tt (final r).
Proof. destruct r as [[] m | | |]; try discriminate. reflexivity. Qed.

(** ** Planning an eject chain *)

Section Chain.

Variable w : World.
Variable player_controlled : bool.

Lemma entries_of_cons (d self : dev) (e : eject) (l : list (dev * eject)) :
  entries_of d ((self, e) :: l)
  = if String.eqb self d then e :: entries_of d l else entries_of d l.
Proof.
  unfold entries_of. simpl. destruct (String.eqb self d); reflexivity.
Qed.

Lemma setup_eject_chain_next_hop_Ok (path : list dev) :
  forall self m m',
    setup_eject_chain_next_hop w self path player_controlled m = Ok tt m' ->
    path <> []
    /\ (forall d, available_balls (devices m' d)
                  = available_balls (devices m d))
    /\ (forall d, eject_queue (devices m' d)
                  = eject_queue (devices m d)
                    ++ entries_of d
                         (chain_entries w player_controlled self path)).
Proof.
  induction path as [| next_hop rest IH]; intros self m m' H;
    [discriminate |].
  cbn [setup_eject_chain_next_hop] in H.
  apply bind_Ok in H. destruct H as ([] & m1 & Hc & H).
  apply check_Ok in Hc. destruct Hc as [_ ->].
  apply bind_Ok in H. destruct H as (timeout & m1 & Hl & H).
  apply lookup_Ok in Hl. subst m1.
  apply bind_Ok in H. destruct H as ([] & m1 & He & H).
  injection He as <-.
  apply bind_Ok in H. destruct H as ([] & m2 & Hq & H).
  assert (Hm2 : m2 = update_device self
                       (fun s => set_eject_queue
                          (eject_queue s
                           ++ [chain_entry w player_controlled self next_hop])
                          s)
                       (record (Add_eject_to_queue self next_hop timeout
                                  (max_eject_attempts (config w self))
                                  player_controlled) m)).
  { unfold chain_entry.
    destruct (player_controlled
              && (mechanical_eject (config w self)
                  || truthy_str
                       (player_controlled_eject_event (config w self))));
      injection Hq as <-; reflexivity. }
  clear Hq. subst m2.
  apply bind_Ok in H. destruct H as ([] & m3 & Hr & H).
  injection H as <-.
  split; [discriminate |].
  assert (Hrec :
    (forall d, available_balls (devices m3 d)
                 = available_balls (devices m d))
    /\ (forall d, eject_queue (devices m3 d)
                  = eject_queue (devices m d)
                    ++ entries_of d
                         ((self, chain_entry w player_controlled self next_hop)
                          :: chain_entries w player_controlled next_hop rest))).
  { destruct rest as [| r rest].
    - injection Hr as <-. split.
      + intros d. rewrite devices_update. simpl.
        destruct (String.eqb d self); reflexivity.
      + intros d. rewrite devices_update, entries_of_cons. simpl.
        rewrite String.eqb_sym.
        destruct (String.eqb_spec self d); [subst; reflexivity |].
        rewrite app_nil_r. reflexivity.
    - apply IH in Hr. destruct Hr as (_ & Ha & Hq). split.
      + intros d. rewrite Ha, devices_update. simpl.
        destruct (String.eqb d self); reflexivity.
      + intros d. rewrite Hq, devices_update, entries_of_cons. simpl.
        rewrite String.eqb_sym.
        destruct (String.eqb_spec self d); [subst |]; simpl.
        * rewrite <- app_assoc. reflexivity.
        * reflexivity. }
  destruct Hrec as (Ha & Hq). split.
  - intros d. rewrite devices_update.
    destruct (String.eqb d self); [simpl |]; apply Ha.
  - intros d. rewrite devices_update.
    destruct (String.eqb d self); [simpl |]; apply Hq.
Qed.

(* the devices that eject along [self :: path]: all but the last *)
Lemma entries_of_outside (d : dev) (path : list dev) :
  forall self,
    ~ In d (removelast (self :: path)) ->
    entries_of d (chain_entries w player_controlled self path) = [].
Proof.
  induction path as [| next_hop rest IH]; intros self Hd; [reflexivity |].
  cbn [chain_entries]. rewrite entries_of_cons.
  change (removelast (self :: next_hop :: rest))
    with (self :: removelast (next_hop :: rest)) in Hd.
  destruct (String.eqb_spec self d) as [-> | Hne].
  - exfalso. apply Hd. now left.
  - apply IH. intros Hin. apply Hd. now right.
Qed.

Lemma In_removelast {A} (x : A) (l : list A) :
  In x (removelast l) -> In x l.
Proof.
  induction l as [| a l IH]; [intros [] |].
  destruct l as [| b l]; [intros [] |].
  change (removelast (a :: b :: l)) with (a :: removelast (b :: l)).
  intros [<- | H]; [now left | right; auto].
Qed.

Lemma entries_of_hop (path : list dev) :
  forall self i hop next,
    NoDup (self :: path) ->
    nth_error (self :: path) i = Some hop ->
    nth_error path i = Some next ->
    entries_of hop (chain_entries w player_controlled self path)
    = [chain_entry w player_controlled hop next].
Proof.
  induction path as [| p rest IH]; intros self i hop next Hnd Hh Hn.
  - destruct i; discriminate.
  - cbn [chain_entries]. rewrite entries_of_cons.
    inversion Hnd as [| ? ? Hself Hnd']; subst.
    destruct i as [| i].
    + injection Hh as <-. injection Hn as <-.
      rewrite String.eqb_refl. f_equal.
      apply entries_of_outside. intros Hin. apply Hself.
      now apply In_removelast.
    + simpl in Hh, Hn.
      destruct (String.eqb_spec self hop) as [-> | Hne].
      * exfalso. apply Hself. eapply nth_error_In. exact Hh.
      * eapply IH; eauto.
Qed.

Lemma last_Some (path : list dev) (target : dev) :
  last (map Some path) None = Some target ->
  exists front, path = front ++ [target].
Proof.
  induction path as [| a path _] using rev_ind; [discriminate |].
  rewrite map_app. simpl. rewrite last_last. intros [= ->]. eauto.
Qed.


(** C5, as the code has it: for a path of pairwise distinct devices that
    [setup_eject_chain] accepts, the source has an available ball and loses
    it, the final target gains one, every other device, the intermediate
    hops among them, keeps its available balls, and every device of the
    path but the last receives exactly one new entry at the end of its
    eject queue, for the eject to the next device of the path. *)
Theorem setup_eject_chain_frame (self : dev) (path : list dev)
  (m m' : Machine) :
  NoDup path ->
  setup_eject_chain w self path player_controlled m = Ok tt m' ->
  exists mid target,
    path = self :: mid ++ [target]
    /\ 0 < available_balls (devices m self)
    /\ available_balls (devices m' self)
       = available_balls (devices m self) - 1
    /\ available_balls (devices m' target)
       = available_balls (devices m target) + 1
    /\ (forall d, d <> self -> d <> target ->
          available_balls (devices m' d) = available_balls (devices m d))
    /\ (forall d, In d mid ->
          available_balls (devices m' d) = available_balls (devices m d))
    /\ (forall i hop next,
          nth_error path i = Some hop ->
          nth_error path (S i) = Some next ->
          eject_queue (devices m' hop)
          = eject_queue (devices m hop)
            ++ [chain_entry w player_controlled hop next])
    /\ (forall d, ~ In d (self :: mid) ->
          eject_queue (devices m' d) = eject_queue (devices m d)).
Proof.
  intros Hnd H. unfold setup_eject_chain in H.
  apply bind_Ok in H. destruct H as (available & m0 & Hr & H).
  injection Hr as <- <-.
  apply bind_Ok in H. destruct H as ([] & m0 & Hc & H).
  apply check_Ok in Hc. destruct Hc as [Hpos ->].
  apply Z.leb_gt in Hpos.
  apply bind_Ok in H. destruct H as ([] & m1 & Hm & H).
  injection Hm as <-.
  destruct (last (map Some path) None) as [target |] eqn:Hlast;
    [| discriminate].
  destruct path as [| source rest]; [discriminate |].
  apply bind_Ok in H. destruct H as ([] & m1 & Hc & H).
  apply check_Ok in Hc. destruct Hc as [Hs ->].
  apply negb_false_iff, String.eqb_eq in Hs. subst source.
  apply bind_Ok in H. destruct H as ([] & m2 & Hn & H).
  apply bind_Ok in H. destruct H as ([] & m3 & Hm & H).
  injection Hm as <-. injection H as Hm'.
  apply setup_eject_chain_next_hop_Ok in Hn.
  destruct Hn as (Hne & Ha & Hq).
  apply last_Some in Hlast. destruct Hlast as (front & Hfront).
  destruct front as [| f front].
  { destruct rest; [contradiction | discriminate]. }
  injection Hfront as <- ->.
  exists front, target.
  assert (Hts : target <> self).
  { intros ->. inversion Hnd as [| ? ? Hin _]. apply Hin.
    apply in_or_app. right. now left. }
  assert (Hst : String.eqb self target = false)
    by (apply String.eqb_neq; congruence).
  assert (Hts' : String.eqb target self = false)
    by (apply String.eqb_neq; congruence).
  assert (Hav : forall d,
            available_balls (devices m' d)
            = (if String.eqb d target then 1 else 0)
              + ((if String.eqb d self then -1 else 0)
                 + available_balls (devices m d))).
  { intros d. subst m'. cbn [record devices update_device].
    pose proof (Ha d) as Had. cbn [update_device devices] in Had.
    destruct (String.eqb d target), (String.eqb d self);
      cbn [available_balls set_available_balls] in *; lia. }
  assert (Hqu : forall d,
            eject_queue (devices m' d)
            = eject_queue (devices m d)
              ++ entries_of d
                   (chain_entries w player_controlled self
                      (front ++ [target]))).
  { intros d. subst m'. cbn [record devices update_device].
    assert (E : eject_queue
                  (if String.eqb d target
                   then set_available_balls
                          (available_balls (devices m2 d) + 1) (devices m2 d)
                   else devices m2 d)
                = eject_queue (devices m2 d))
      by (destruct (String.eqb d target); reflexivity).
    rewrite E, Hq. cbn [update_device devices].
    destruct (String.eqb d self); reflexivity. }
  assert (Hrl : removelast (self :: front ++ [target]) = self :: front).
  { change (self :: front ++ [target]) with ((self :: front) ++ [target]).
    apply removelast_last. }
  split; [reflexivity |]. split; [assumption |].
  split. { rewrite Hav, String.eqb_refl, Hst. lia. }
  split. { rewrite Hav, String.eqb_refl, Hts'. lia. }
  split.
  { intros d H1 H2. rewrite Hav.
    apply String.eqb_neq in H1, H2. rewrite H1, H2. lia. }
  split.
  { intros d Hd. rewrite Hav.
    assert (d <> self).
    { intros ->. inversion Hnd as [| ? ? Hin _]. apply Hin.
      apply in_or_app. now left. }
    assert (d <> target).
    { intros ->. inversion Hnd as [| ? ? _ Hnd'].
      apply NoDup_remove_2 in Hnd'. apply Hnd'.
      rewrite app_nil_r. assumption. }
    apply String.eqb_neq in H, H0. rewrite H, H0. lia. }
  split.
  { intros i hop next Hh Hx. rewrite Hqu. f_equal.
    eapply entries_of_hop; eauto. }
  intros d Hd. rewrite Hqu, entries_of_outside, app_nil_r; [reflexivity |].
  rewrite Hrl. assumption.
Qed.

End Chain.

(** C5 as stated fails on a path that comes back to its source.  Where A and
    B eject to each other, [setup_eject_chain] accepts the path B, A, B from
    B: the ball B gives up as the source it regains as the final target, so
    the available balls of B are unchanged. *)
Lemma setup_eject_chain_returning_path :
  let m := machine_of [("B", holding 1)] [] in
  let r := setup_eject_chain loop_world "B" ["B"; "A"; "B"] false m in
  returns r = true
  /\ available_balls (devices m "B") = 1
  /\ available_balls (devices (final r) "B") = 1
  /\ available_balls (devices (final r) "B")
     <> available_balls (devices m "B") - 1.
Proof.
  intros m r.
  assert (H1 : returns r = true) by (vm_compute; reflexivity).
  assert (H2 : available_balls (devices m "B") = 1)
    by (vm_compute; reflexivity).
  assert (H3 : available_balls (devices (final r) "B") = 1)
    by (vm_compute; reflexivity).
  repeat split; try assumption. rewrite H2, H3. discriminate.
Qed.

Lemma setup_eject_chain_frame_witness :
  let m := machine_of [("A", holding 1)] [] in
  let m' := final (setup_eject_chain line_world "A" ["A"; "B"; "C"] false m) in
  NoDup ["A"; "B"; "C"]
  /\ setup_eject_chain line_world "A" ["A"; "B"; "C"] false m = Ok tt m'
  /\ exists mid target,
       ["A"; "B"; "C"] = "A" :: mid ++ [target]
       /\ available_balls (devices m' "A")
          = available_balls (devices m "A") - 1
       /\ available_balls (devices m' target)
          = available_balls (devices m target) + 1.
Proof.
  intros m m'.
  assert (Hnd : NoDup ["A"; "B"; "C"]).
  { repeat constructor; simpl; intuition discriminate. }
  assert (Hok : setup_eject_chain line_world "A" ["A"; "B"; "C"] false m
                = Ok tt m').
  { apply returns_final. vm_compute. reflexivity. }
  split; [exact Hnd |]. split; [exact Hok |].
  destruct (setup_eject_chain_frame line_world false "A" _ m m' Hnd Hok)
    as (mid & target & Hp & _ & Ha & Ht & _).
  exists mid, target. repeat split; assumption.
Defined.

(** ** Configuration validation *)

Section Validation.

Variable w : World.

Lemma append_cancel (p a b : string) :
  String.append p a = String.append p b -> a = b.
Proof.
  induction p as [| ch p IH]; simpl; [auto |].
  intros [= H]. auto.
Qed.

Lemma configuration_error_cancel (self : dev) (a b : string) :
  configuration_error self a = configuration_error self b -> a = b.
Proof.
  unfold configuration_error. intros H.
  repeat apply append_cancel in H. exact H.
Qed.

Lemma no_ejector_msg_head (self : dev) :
  exists rest, no_ejector_msg self = String "C"%char rest.
Proof. unfold no_ejector_msg, configuration_error. simpl. eauto. Qed.

(* an error of a later check is not the error about the ejector *)
Ltac other_error H :=
  let E' := fresh "E" in
  match type of H with
  | Raise (AssertionError (configuration_error _ _)) _
    = Raise (AssertionError _) _ =>
      injection H; intros E';
      first [apply configuration_error_cancel in E'
            | apply append_cancel in E'];
      discriminate E'
  | Raise (AssertionError _) _ = Raise (AssertionError _) _ =>
      injection H; intros E'; simpl in E';
      match goal with
      | E : configuration_error _ _ = String _ _ |- _ =>
          rewrite E in E'; discriminate E'
      end
  | _ => discriminate H
  end.

Lemma _validate_config_passes_ejector (fuel : nat) (self : dev)
  (m : Machine) :
  negb (truthy (eject_coil (config w self)))
  && negb (truthy (hold_coil (config w self)))
  && negb (mechanical_eject (config w self)) = false ->
  _validate_config w fuel self m
  <> Raise (AssertionError (no_ejector_msg self)) m.
Proof.
  intros Hfirst H.
  destruct (no_ejector_msg_head self) as [rest E].
  unfold _validate_config in H. rewrite Hfirst in H.
  unfold no_ejector_msg in H, E.
  unfold bind, check, min_values, max_values, found, ret, raise,
    out_of_fuel in H.
  repeat match type of H with
    | context [match ?x with _ => _ end] =>
        match x with
        | context [match _ with _ => _ end] => fail 1
        | _ => destruct x; try other_error H
        end
    end.
Qed.

(** C3, as the code has it: for a configuration that does not name both an
    eject_coil and a hold_coil, validation fails with the error about the
    ejector if and only if none of eject_coil, hold_coil and
    mechanical_eject=true is configured.  A coil together with
    mechanical_eject=true passes this check. *)
Theorem _validate_config_needs_an_ejector (fuel : nat) (self : dev)
  (m : Machine) :
  eject_coil (config w self) = None \/ hold_coil (config w self) = None ->
  (_validate_config w fuel self m
   = Raise (AssertionError (no_ejector_msg self)) m
   <-> eject_coil (config w self) = None
       /\ hold_coil (config w self) = None
       /\ mechanical_eject (config w self) = false).
Proof.
  intros _. split.
  - intros H.
    destruct (negb (truthy (eject_coil (config w self)))
              && negb (truthy (hold_coil (config w self)))
              && negb (mechanical_eject (config w self))) eqn:Hfirst.
    + apply andb_true_iff in Hfirst. destruct Hfirst as [Hfirst Hm].
      apply andb_true_iff in Hfirst. destruct Hfirst as [He Hh].
      destruct (eject_coil (config w self)); [discriminate |].
      destruct (hold_coil (config w self)); [discriminate |].
      destruct (mechanical_eject (config w self)); [discriminate |].
      auto.
    + exfalso.
      exact (_validate_config_passes_ejector fuel self m Hfirst H).
  - intros (He & Hh & Hm). unfold _validate_config.
    rewrite He, Hh, Hm. reflexivity.
Qed.

End Validation.

(** C3 as stated fails: a plunger lane with an eject coil and
    mechanical_eject=true, two of the three, passes validation. *)
Lemma _validate_config_accepts_coil_and_plunger :
  let w := plunger_world (Some "c_plunger") None true in
  let m := machine_of [] [] in
  eject_coil (config w "plunger") <> None
  /\ mechanical_eject (config w "plunger") = true
  /\ _validate_config w 1 "plunger" m = Ok tt m.
Proof.
  intros w m. split; [discriminate |]. split; reflexivity.
Qed.

Lemma _validate_config_needs_an_ejector_witness :
  let w := plunger_world None None false in
  let m := machine_of [] [] in
  (eject_coil (config w "plunger") = None
   \/ hold_coil (config w "plunger") = None)
  /\ _validate_config w 1 "plunger" m
     = Raise (AssertionError (no_ejector_msg "plunger")) m.
Proof.
  intros w m.
  assert (H : eject_coil (config w "plunger") = None
              \/ hold_coil (config w "plunger") = None)
    by (left; reflexivity).
  split; [exact H |].
  apply (proj2 (_validate_config_needs_an_ejector w 1 "plunger" m H)).
  repeat split; reflexivity.
Defined.

(** The comment of the source forbids a device with both coils; the check
    lets it pass. *)
Lemma _validate_config_accepts_two_coils :
  let w := plunger_world (Some "c_eject") (Some "c_hold") false in
  let m := machine_of [] [] in
  _validate_config w 1 "plunger" m = Ok tt m.
Proof. reflexivity. Qed.

(** ** Eject confirmation *)

(** C1, as the code has it: [eject_success] raises AssertionError at its
    first statement, whatever the device and its state; nothing is posted
    and no attribute changes. *)
Theorem eject_success_raises (w : World) (fuel : nat) (self : dev)
  (m : Machine) :
  eject_success w fuel self m = Raise (AssertionError "do not use") m.
Proof. destruct fuel; reflexivity. Qed.

(** C1 as stated fails: for a device in its second eject attempt to B,
    [eject_success] posts nothing, keeps the attempt count and the target,
    and leaves the success condition unset. *)
Lemma eject_success_changes_nothing :
  let w := world_of [("A", ejecting_to ["B"])] [] [] in
  let m := machine_of [("A", ejecting_at 2 "B")] [] in
  let r := eject_success w 1 "A" m in
  r = Raise (AssertionError "do not use") m
  /\ trace (final r) = []
  /\ num_eject_attempts (devices (final r) "A") = 2
  /\ eject_in_progress_target (devices (final r) "A") = Some "B"
  /\ _eject_success_condition (devices (final r) "A") = false.
Proof. intros w m r. repeat split; reflexivity. Qed.

(** ** Lost incoming balls *)

(** What [_handle_lost_incoming_ball] does when it runs, as
    [_waiting_for_ball] means it to with its [yield from]: with no
    available ball and an eject queued, it pops the head of the eject queue
    and posts ball_lost with the target of that head; with an available
    ball it gives up that ball and cancels nothing. *)
Lemma _handle_lost_incoming_ball_cancels (self : dev) (m : Machine)
  (target : option dev) (mechanical : bool) (trigger : option string)
  (rest : list eject) :
  available_balls (devices m self) <= 0 ->
  eject_queue (devices m self) = (target, mechanical, trigger) :: rest ->
  _handle_lost_incoming_ball self m
  = Ok tt
      (record (Post (ball_lost self target))
         (update_device self (set_eject_queue rest) m)).
Proof.
  intros Ha Hq. unfold _handle_lost_incoming_ball, _cancel_eject, bind, read.
  destruct (Z.ltb_spec 0 (available_balls (devices m self))); [lia |].
  rewrite Hq. cbv beta iota. rewrite Hq. reflexivity.
Qed.

Lemma _handle_lost_incoming_ball_available (self : dev) (m : Machine) :
  0 < available_balls (devices m self) ->
  _handle_lost_incoming_ball self m
  = Ok tt
      (update_device self
         (fun s => set_available_balls (available_balls s - 1) s) m).
Proof.
  intros Ha. unfold _handle_lost_incoming_ball, bind, read.
  destruct (Z.ltb_spec 0 (available_balls (devices m self))); [| lia].
  reflexivity.
Qed.

(** The loop of [_handle_ball_changes] over the expired incoming balls
    calls [_handle_lost_incoming_ball] without [yield from]: it drops the
    expired balls and touches neither the eject queues, nor the available
    balls, nor the event bus. *)
Lemma expire_incoming_balls_cancels_nothing (self : dev)
  (incoming : list (Z * dev)) :
  forall missing m,
  exists missing' m',
    expire_incoming_balls self incoming missing m = Ok missing' m'
    /\ trace m' = trace m
    /\ forall d,
         eject_queue (devices m' d) = eject_queue (devices m d)
         /\ available_balls (devices m' d) = available_balls (devices m d).
Proof.
  induction incoming as [| [deadline source] rest IH]; intros missing m.
  - exists missing, m. repeat split; reflexivity.
  - cbn [expire_incoming_balls]. unfold bind at 1. unfold get_time.
    destruct (deadline <=? now m).
    + unfold bind at 1. unfold modify. unfold bind at 1.
      unfold create_coroutine, ret.
      destruct (IH (missing + 1)
                  (update_device self (set_incoming_balls rest) m))
        as (k & m' & -> & Ht & Hd).
      exists k, m'. split; [reflexivity |]. split; [exact Ht |].
      intros d. destruct (Hd d) as [Hq Ha]. rewrite Hq, Ha.
      rewrite devices_update. destruct (String.eqb d self); auto.
    + exists missing, m. repeat split; reflexivity.
Qed.


(** [_waiting_for_ball], the path that does await
    [_handle_lost_incoming_ball], raises at its first statement, the
    assignment to [_state], and never reaches it. *)
Lemma _waiting_for_ball_raises (w : World) (fuel : nat) (self : dev)
  (m : Machine) :
  _waiting_for_ball w fuel self m = Raise (AttributeError "_state") m.
Proof. destruct fuel; reflexivity. Qed.

(** ** The failed eject *)


(** A first failed eject of three allowed: nothing is posted, the device is
    neither ejecting again nor broken, and its attempt count stands. *)
Lemma failed_eject_posts_nothing :
  let r := _failed_eject (retry_world 3) 3 "A"
             (machine_of [("A", ejecting_at 1 "B")] []) in
  raised r = Some (AttributeError "_state")
  /\ trace (final r) = []
  /\ num_eject_attempts (devices (final r) "A") = 1
  /\ eject_queue (devices (final r) "A") = [].
Proof. intros r. repeat split; vm_compute; reflexivity. Qed.

(** ** Relations on runs *)

Lemma Sat_bind {A B} (R1 R2 R : Machine -> Machine -> Prop) (c : M A)
  (k : A -> M B) :
  Sat R1 c ->
  (forall a, Sat R2 (k a)) ->
  (forall m m1, R1 m m1 -> R m m1) ->
  (forall m m1 m2, R1 m m1 -> R2 m1 m2 -> R m m2) ->
  Sat R (bind c k).
Proof.
  intros Hc Hk Hstop Hseq m. specialize (Hc m). unfold bind.
  destruct (c m) as [a m1 | e m1 | m1 | m1]; simpl in *; auto.
  eapply Hseq; [exact Hc | apply Hk].
Qed.

(** ** Loading the configuration *)

Section Parsing.

Variable string_to_ms : string -> Z.

Lemma dict_get_absent (k : dev) (d : list (dev * Z)) :
  ~ In k (map fst d) -> dict_get k d = None.
Proof.
  induction d as [| [k' v'] d IH]; [reflexivity |].
  simpl. intros H. rewrite IH by tauto.
  destruct (String.eqb_spec k k'); [subst; tauto | reflexivity].
Qed.

Lemma dict_get_In (k : dev) (v : Z) (d : list (dev * Z)) :
  dict_get k d = Some v -> In (k, v) d.
Proof.
  induction d as [| [k' v'] d IH]; [discriminate |].
  simpl. destruct (dict_get k d) as [v0 |].
  - intros [= <-]. right. auto.
  - destruct (String.eqb_spec k k'); [| discriminate].
    intros [= <-]. subst. now left.
Qed.

Lemma dict_set_keys (k : dev) (v : Z) (d : list (dev * Z)) :
  map fst (dict_set k v d)
  = if mem k (map fst d) then map fst d else map fst d ++ [k].
Proof.
  induction d as [| [k' v'] d IH]; [reflexivity |].
  cbn [dict_set map fst mem existsb].
  destruct (String.eqb_spec k k') as [-> | Hne]; [reflexivity |].
  cbn [map fst orb]. rewrite IH. unfold mem.
  destruct (existsb (String.eqb k) (map fst d)); reflexivity.
Qed.

Lemma dict_set_NoDup (k : dev) (v : Z) (d : list (dev * Z)) :
  NoDup (map fst d) -> NoDup (map fst (dict_set k v d)).
Proof.
  intros H. rewrite dict_set_keys.
  destruct (mem k (map fst d)) eqn:E; [assumption |].
  apply NoDup_app; [assumption | repeat constructor; simpl; tauto |].
  intros x Hx [<- | []].
  apply mem_In in Hx. congruence.
Qed.

Lemma dict_get_set_same (k : dev) (v : Z) (d : list (dev * Z)) :
  NoDup (map fst d) -> dict_get k (dict_set k v d) = Some v.
Proof.
  induction d as [| [k' v'] d IH]; intros Hnd.
  - simpl. rewrite String.eqb_refl. reflexivity.
  - inversion Hnd as [| ? ? Hk Hnd']; subst.
    cbn [dict_set]. destruct (String.eqb_spec k k') as [-> | Hne].
    + cbn [dict_get]. rewrite dict_get_absent by assumption.
      rewrite String.eqb_refl. reflexivity.
    + cbn [dict_get]. rewrite IH by assumption. reflexivity.
Qed.

Lemma dict_get_set_other (k k' : dev) (v : Z) (d : list (dev * Z)) :
  k' <> k -> dict_get k' (dict_set k v d) = dict_get k' d.
Proof.
  intros Hne. induction d as [| [k0 v0] d IH].
  - simpl. destruct (String.eqb_spec k' k); [contradiction | reflexivity].
  - cbn [dict_set]. destruct (String.eqb_spec k k0) as [-> | Hk].
    + cbn [dict_get].
      destruct (String.eqb_spec k' k0); [contradiction | reflexivity].
    + cbn [dict_get]. rewrite IH. reflexivity.
Qed.

Lemma fill_timeouts_NoDup (targets : list dev) :
  forall timeouts d,
    NoDup (map fst d) ->
    NoDup (map fst (fill_timeouts string_to_ms targets timeouts d)).
Proof.
  induction targets as [| t targets IH]; intros [| s timeouts] d H;
    simpl; auto.
  apply IH, dict_set_NoDup, H.
Qed.

Lemma fill_timeouts_other (k : dev) (targets : list dev) :
  forall timeouts d,
    ~ In k targets ->
    dict_get k (fill_timeouts string_to_ms targets timeouts d)
    = dict_get k d.
Proof.
  induction targets as [| t targets IH]; intros [| s timeouts] d H;
    simpl; auto.
  rewrite IH by (simpl in H; tauto).
  apply dict_get_set_other. simpl in H. intros ->. tauto.
Qed.

Lemma fill_timeouts_keys (targets : list dev) :
  forall timeouts d k,
    In k (map fst (fill_timeouts string_to_ms targets timeouts d)) ->
    In k (map fst d) \/ In k targets.
Proof.
  induction targets as [| t targets IH]; intros [| s timeouts] d k H;
    simpl in *; auto.
  apply IH in H. destruct H as [H | H]; [| auto].
  rewrite dict_set_keys in H.
  destruct (mem t (map fst d)); [auto |].
  apply in_app_or in H. destruct H as [H | [<- | []]]; auto.
Qed.

(* the value a target gets is the one of its last occurrence *)
Lemma fill_timeouts_last (targets : list dev) :
  forall timeouts d i t,
    NoDup (map fst d) ->
    (List.length targets <= List.length timeouts)%nat ->
    nth_error targets i = Some t ->
    ~ In t (skipn (S i) targets) ->
    dict_get t (fill_timeouts string_to_ms targets timeouts d)
    = Some (string_to_ms (nth i timeouts "")).
Proof.
  induction targets as [| t0 targets IH]; intros timeouts d i t Hnd Hlen Hi Hlast.
  - destruct i; discriminate.
  - destruct timeouts as [| s timeouts]; [simpl in Hlen; lia |].
    cbn [fill_timeouts]. destruct i as [| i].
    + injection Hi as ->. cbn [skipn] in Hlast.
      rewrite fill_timeouts_other by assumption.
      apply dict_get_set_same, Hnd.
    + cbn [nth]. apply IH.
      * apply dict_set_NoDup, Hnd.
      * simpl in Hlen. lia.
      * exact Hi.
      * exact Hlast.
Qed.

Lemma pad_length (default : string) (n : nat) (l : list string) :
  (n <= List.length (pad default n l))%nat.
Proof. unfold pad. rewrite length_app, repeat_length. lia. Qed.

Lemma pad_nth (default : string) (n : nat) (l : list string) (i : nat) :
  nth i (pad default n l) default = nth i l default.
Proof.
  unfold pad. destruct (Nat.lt_ge_cases i (List.length l)).
  - apply app_nth1. assumption.
  - rewrite app_nth2 by assumption.
    rewrite (nth_overflow l) by assumption.
    destruct (Nat.lt_ge_cases (i - List.length l) (n - List.length l)).
    + apply nth_repeat_lt. assumption.
    + apply nth_overflow. rewrite repeat_length. assumption.
Qed.

Lemma pad_nth_any (default : string) (n : nat) (l : list string) (i : nat)
  (other : string) :
  (i < n)%nat ->
  nth i (pad default n l) other = nth i l default.
Proof.
  intros Hi. rewrite <- (pad_nth default n l i).
  apply nth_indep. pose proof (pad_length default n l). lia.
Qed.

End Parsing.

Section ParsedTimeouts.

Variable string_to_ms : string -> Z.

Lemma last_occurrence (t : dev) (l : list dev) :
  In t l ->
  exists i, nth_error l i = Some t /\ ~ In t (skipn (S i) l).
Proof.
  induction l as [| a l IH]; [contradiction |].
  intros Hin. destruct (in_dec string_dec t l) as [Hl | Hl].
  - destruct (IH Hl) as (i & Hi & Hn). exists (S i). split; assumption.
  - destruct Hin as [-> | Hin]; [| contradiction].
    exists O. split; [reflexivity | exact Hl].
Qed.

Lemma fill_timeouts_padded (default : string) (targets : list dev)
  (timeouts : list string) (i : nat) (t : dev) :
  nth_error targets i = Some t ->
  ~ In t (skipn (S i) targets) ->
  dict_get t
    (fill_timeouts string_to_ms targets
       (pad default (List.length targets) timeouts) [])
  = Some (string_to_ms (nth i timeouts default)).
Proof.
  intros Hi Hn.
  rewrite (fill_timeouts_last string_to_ms targets _ [] i t
             (NoDup_nil _) (pad_length _ _ _) Hi Hn).
  rewrite pad_nth_any; [reflexivity |].
  apply nth_error_Some. congruence.
Qed.

Lemma fill_timeouts_covers (default : string) (targets : list dev)
  (timeouts : list string) (t : dev) :
  In t targets
  <-> dict_get t
        (fill_timeouts string_to_ms targets
           (pad default (List.length targets) timeouts) []) <> None.
Proof.
  split.
  - intros Hin. destruct (last_occurrence t targets Hin) as (i & Hi & Hn).
    rewrite (fill_timeouts_padded default targets timeouts i t Hi Hn).
    discriminate.
  - intros Hne.
    destruct (dict_get t _) as [v |] eqn:E; [| contradiction].
    apply dict_get_In in E. apply (in_map fst) in E. cbn [fst] in E.
    apply fill_timeouts_keys in E. destruct E as [[] | E]. exact E.
Qed.

(** X2: after [_parse_config] the eject timeout of an eject target is the
    time string at its position in the configured list, converted to
    milliseconds, and that of 10s where the list is too short; its
    ball-missing timeout likewise, with 20s.  Of a target listed twice the
    last position counts. *)
Theorem _parse_config_timeouts (c : Unparsed) (i : nat) (t : dev) :
  nth_error (unparsed_eject_targets c) i = Some t ->
  ~ In t (skipn (S i) (unparsed_eject_targets c)) ->
  let p := _parse_config string_to_ms c in
  dict_get t (parsed_eject_timeouts p)
  = Some (string_to_ms (nth i (unparsed_eject_timeouts c) "10s"))
  /\ dict_get t (parsed_ball_missing_timeouts p)
     = Some (string_to_ms (nth i (unparsed_ball_missing_timeouts c) "20s")).
Proof.
  intros Hi Hn p. subst p. unfold _parse_config.
  cbn [parsed_eject_timeouts parsed_ball_missing_timeouts].
  split; apply fill_timeouts_padded; assumption.
Qed.

(** X3: after [_parse_config] the two timeout dicts have exactly the eject
    targets as keys, each once: a lookup of an eject target never fails. *)
Theorem _parse_config_covers (c : Unparsed) (t : dev) :
  let p := _parse_config string_to_ms c in
  (In t (unparsed_eject_targets c)
   <-> dict_get t (parsed_eject_timeouts p) <> None)
  /\ (In t (unparsed_eject_targets c)
      <-> dict_get t (parsed_ball_missing_timeouts p) <> None)
  /\ NoDup (map fst (parsed_eject_timeouts p))
  /\ NoDup (map fst (parsed_ball_missing_timeouts p)).
Proof.
  intros p. subst p. unfold _parse_config.
  cbn [parsed_eject_timeouts parsed_ball_missing_timeouts].
  split; [apply fill_timeouts_covers |].
  split; [apply fill_timeouts_covers |].
  split; apply fill_timeouts_NoDup; constructor.
Qed.

End ParsedTimeouts.

Lemma _parse_config_timeouts_witness :
  nth_error (unparsed_eject_targets short_timeouts) 1 = Some "C"
  /\ ~ In "C" (skipn 2 (unparsed_eject_targets short_timeouts))
  /\ dict_get "C"
       (parsed_eject_timeouts (_parse_config seconds short_timeouts))
     = Some 10000
  /\ dict_get "C"
       (parsed_ball_missing_timeouts (_parse_config seconds short_timeouts))
     = Some 20000.
Proof.
  assert (H1 : nth_error (unparsed_eject_targets short_timeouts) 1 = Some "C")
    by reflexivity.
  assert (H2 : ~ In "C" (skipn 2 (unparsed_eject_targets short_timeouts)))
    by (intros []).
  split; [exact H1 |]. split; [exact H2 |].
  exact (_parse_config_timeouts seconds short_timeouts 1 "C" H1 H2).
Defined.

(** ** What validation accepts *)

Section ValidationExact.

Variable w : World.

Lemma fold_min_le (l : list Z) :
  forall v x, In x (v :: l) -> fold_left Z.min l v <= x.
Proof.
  induction l as [| y l IH]; intros v x [<- | H]; simpl.
  - lia.
  - destruct H.
  - etransitivity; [apply IH; now left | lia].
  - destruct H as [<- | H].
    + etransitivity; [apply IH; now left | lia].
    + apply IH. now right.
Qed.

Lemma fold_max_ge (l : list Z) :
  forall v x, In x (v :: l) -> x <= fold_left Z.max l v.
Proof.
  induction l as [| y l IH]; intros v x [<- | H]; simpl.
  - lia.
  - destruct H.
  - etransitivity; [| apply IH; now left]. lia.
  - destruct H as [<- | H].
    + etransitivity; [| apply IH; now left]. lia.
    + apply IH. now right.
Qed.

Lemma min_values_Ok (d : list (dev * Z)) (m : Machine) (v : Z)
  (m' : Machine) :
  min_values d m = Ok v m' ->
  m' = m /\ d <> [] /\ forall k x, In (k, x) d -> v <= x.
Proof.
  unfold min_values. destruct d as [| [k0 v0] d]; [discriminate |].
  cbn [map snd]. intros [= <- <-]. split; [reflexivity |].
  split; [discriminate |]. intros k x H.
  apply fold_min_le. apply (in_map snd) in H. exact H.
Qed.

Lemma max_values_Ok (d : list (dev * Z)) (m : Machine) (v : Z)
  (m' : Machine) :
  max_values d m = Ok v m' ->
  m' = m /\ d <> [] /\ forall k x, In (k, x) d -> x <= v.
Proof.
  unfold max_values. destruct d as [| [k0 v0] d]; [discriminate |].
  cbn [map snd]. intros [= <- <-]. split; [reflexivity |].
  split; [discriminate |]. intros k x H.
  apply fold_max_ge. apply (in_map snd) in H. exact H.
Qed.

Lemma found_Ok {A} (r : search A) (m : Machine) (b : bool) (m' : Machine) :
  found r m = Ok b m' ->
  m' = m /\ (b = true <-> exists a, r = Found a).
Proof.
  destruct r as [a | |]; simpl; try discriminate; intros [= <- <-];
    (split; [reflexivity |]); split; try discriminate; eauto.
  intros [a H]. discriminate.
Qed.


Lemma fold_min_In (l : list Z) :
  forall v, In (fold_left Z.min l v) (v :: l).
Proof.
  induction l as [| y l IH]; intros v; [now left |].
  cbn [fold_left]. destruct (IH (Z.min v y)) as [E | H].
  - rewrite <- E. destruct (Z.min_spec v y) as [[_ ->] | [_ ->]];
      [now left | right; now left].
  - right. now right.
Qed.

Lemma fold_max_In (l : list Z) :
  forall v, In (fold_left Z.max l v) (v :: l).
Proof.
  induction l as [| y l IH]; intros v; [now left |].
  cbn [fold_left]. destruct (IH (Z.max v y)) as [E | H].
  - rewrite <- E. destruct (Z.max_spec v y) as [[_ ->] | [_ ->]];
      [right; now left | now left].
  - right. now right.
Qed.

Lemma min_values_In (d : list (dev * Z)) (m : Machine) :
  d <> [] ->
  exists k v, min_values d m = Ok v m /\ In (k, v) d.
Proof.
  unfold min_values. destruct d as [| [k0 v0] d]; [contradiction |].
  intros _. cbn [map snd].
  pose proof (fold_min_In (map snd d) v0) as H.
  change (v0 :: map snd d) with (map snd ((k0, v0) :: d)) in H.
  apply in_map_iff in H. destruct H as ([k v] & E & H). cbn in E.
  exists k, v. rewrite <- E. split; [reflexivity | exact H].
Qed.

Lemma max_values_In (d : list (dev * Z)) (m : Machine) :
  d <> [] ->
  exists k v, max_values d m = Ok v m /\ In (k, v) d.
Proof.
  unfold max_values. destruct d as [| [k0 v0] d]; [contradiction |].
  intros _. cbn [map snd].
  pose proof (fold_max_In (map snd d) v0) as H.
  change (v0 :: map snd d) with (map snd ((k0, v0) :: d)) in H.
  apply in_map_iff in H. destruct H as ([k v] & E & H). cbn in E.
  exists k, v. rewrite <- E. split; [reflexivity | exact H].
Qed.

Lemma _validate_config_sound (fuel : nat) (self : dev) (m m' : Machine) :
  _validate_config w fuel self m = Ok tt m' ->
  m' = m /\ well_configured w fuel self.
Proof.
  intros H. unfold well_configured. set (c := config w self).
  unfold _validate_config in H. fold c in H.
  apply bind_Ok in H. destruct H as ([] & m1 & H1 & H).
  apply check_Ok in H1. destruct H1 as [H1 ->].
  apply bind_Ok in H. destruct H as ([] & m1 & H2 & H).
  apply check_Ok in H2. destruct H2 as [H2 ->].
  apply bind_Ok in H. destruct H as (lo1 & m1 & H3 & H).
  apply min_values_Ok in H3. destruct H3 as (-> & Hne & Hlo1).
  apply bind_Ok in H. destruct H as ([] & m1 & H4 & H).
  apply check_Ok in H4. destruct H4 as [H4 ->].
  apply bind_Ok in H. destruct H as (lo2 & m1 & H5 & H).
  apply min_values_Ok in H5. destruct H5 as (-> & _ & Hlo2).
  apply bind_Ok in H. destruct H as ([] & m1 & H6 & H).
  apply check_Ok in H6. destruct H6 as [H6 ->].
  apply bind_Ok in H. destruct H as (hi1 & m1 & H7 & H).
  apply max_values_Ok in H7. destruct H7 as (-> & _ & Hhi1).
  apply bind_Ok in H. destruct H as (lo3 & m1 & H8 & H).
  apply min_values_Ok in H8. destruct H8 as (-> & Hne' & Hlo3).
  apply bind_Ok in H. destruct H as ([] & m1 & H9 & H).
  apply check_Ok in H9. destruct H9 as [H9 ->].
  apply bind_Ok in H. destruct H as (hi2 & m1 & H10 & H).
  apply max_values_Ok in H10. destruct H10 as (-> & _ & Hhi2).
  apply bind_Ok in H. destruct H as ([] & m1 & H11 & H).
  apply check_Ok in H11. destruct H11 as [H11 ->].
  apply bind_Ok in H. destruct H as ([] & m1 & H12 & H).
  apply check_Ok in H12. destruct H12 as [H12 ->].
  apply bind_Ok in H. destruct H as ([] & m1 & H13 & H14).
  apply Z.ltb_ge in H4, H6, H9, H11.
  assert (Hdrain :
    m1 = m
    /\ (mem "drain" (tags w self) = true ->
        mem "trough" (tags w self) = false ->
        exists trough, find_next_trough w fuel self = Found trough)).
  { destruct (mem "drain" (tags w self));
      destruct (mem "trough" (tags w self)); cbn in H13;
      try (injection H13 as <-; split; [reflexivity | discriminate]).
    apply bind_Ok in H13. destruct H13 as (b & m2 & Hf & Hc).
    apply found_Ok in Hf. destruct Hf as [-> Hb].
    apply check_Ok in Hc. destruct Hc as [Hc ->].
    apply negb_false_iff in Hc. split; [reflexivity |].
    intros _ _. apply Hb, Hc. }
  destruct Hdrain as [-> Hdrain].
  assert (Hpath :
    m' = m
    /\ (mem "drain" (tags w self) = false ->
        mem "trough" (tags w self) = false ->
        exists path,
          find_path_to_target w fuel self (_target_on_unexpected_ball c)
          = Found path)).
  { destruct (mem "drain" (tags w self));
      destruct (mem "trough" (tags w self)); cbn in H14;
      try (injection H14 as <-; split; [reflexivity | discriminate]).
    apply bind_Ok in H14. destruct H14 as (b & m2 & Hf & Hc).
    apply found_Ok in Hf. destruct Hf as [-> Hb].
    apply check_Ok in Hc. destruct Hc as [Hc ->].
    apply negb_false_iff in Hc. split; [reflexivity |].
    intros _ _. apply Hb, Hc. }
  destruct Hpath as [-> Hpath].
  split; [reflexivity |]. split.
  { destruct (eject_coil c); [left; discriminate |].
    destruct (hold_coil c); [right; left; discriminate |].
    destruct (mechanical_eject c); [auto | discriminate]. }
  split.
  { intros Hm. rewrite Hm, andb_true_r in H2.
    apply Nat.ltb_ge in H2. exact H2. }
  split; [exact Hne |]. split; [exact Hne' |]. split.
  { intros t v Hin. specialize (Hlo1 t v Hin). specialize (Hlo2 t v Hin).
    lia. }
  split.
  { intros t v t' v' Hin Hin'. specialize (Hhi1 t v Hin).
    specialize (Hlo3 t' v' Hin'). lia. }
  split.
  { intros t v Hin. specialize (Hhi2 t v Hin). lia. }
  split.
  { intros Hs Hn. rewrite Hs, Hn in H12. discriminate. }
  split; assumption.
Qed.


Lemma _validate_config_complete (fuel : nat) (self : dev) (m : Machine) :
  well_configured w fuel self ->
  _validate_config w fuel self m = Ok tt m.
Proof.
  unfold well_configured. set (c := config w self).
  intros (He & Hm & Hne & Hne' & Hd & Hlt & Hhi & Hv & Hdrain & Hpath).
  unfold _validate_config. fold c.
  assert (H1 : negb (truthy (eject_coil c)) && negb (truthy (hold_coil c))
               && negb (mechanical_eject c) = false).
  { destruct (eject_coil c); [reflexivity |].
    destruct (hold_coil c); [reflexivity |].
    destruct (mechanical_eject c); [reflexivity |].
    destruct He as [He | [He | He]]; congruence. }
  assert (H2 : (1 <? List.length (ball_switches c))%nat
               && mechanical_eject c = false).
  { destruct (mechanical_eject c); [| apply andb_false_r].
    rewrite andb_true_r. apply Nat.ltb_ge. auto. }
  destruct (min_values_In (eject_timeouts c) m Hne) as (k1 & lo1 & E1 & I1).
  destruct (max_values_In (eject_timeouts c) m Hne) as (k2 & hi1 & E2 & I2).
  destruct (min_values_In (ball_missing_timeouts c) m Hne')
    as (k3 & lo3 & E3 & I3).
  destruct (max_values_In (ball_missing_timeouts c) m Hne')
    as (k4 & hi2 & E4 & I4).
  unfold bind at 1. rewrite H1. cbn [check ret].
  unfold bind at 1. rewrite H2. cbn [check ret].
  unfold bind at 1. rewrite E1.
  unfold bind at 1.
  rewrite (proj2 (Z.ltb_ge _ _) (proj1 (Hd _ _ I1))). cbn [check ret].
  unfold bind at 1. rewrite E1.
  unfold bind at 1.
  rewrite (proj2 (Z.ltb_ge _ _) (proj2 (Hd _ _ I1))). cbn [check ret].
  unfold bind at 1. rewrite E2.
  unfold bind at 1. rewrite E3.
  unfold bind at 1.
  rewrite (proj2 (Z.ltb_ge _ _) (Hlt _ _ _ _ I2 I3)). cbn [check ret].
  unfold bind at 1. rewrite E4.
  unfold bind at 1.
  rewrite (proj2 (Z.ltb_ge _ _) (Hhi _ _ I4)). cbn [check ret].
  assert (H3 : String.eqb (confirm_eject_type c) "switch"
               && negb (truthy (confirm_eject_switch c)) = false).
  { destruct (String.eqb_spec (confirm_eject_type c) "switch") as [E | E];
      [| reflexivity].
    specialize (Hv E). destruct (confirm_eject_switch c);
      [reflexivity | contradiction]. }
  unfold bind at 1. rewrite H3. cbn [check ret].
  unfold bind at 1.
  destruct (mem "drain" (tags w self)) eqn:Td;
    destruct (mem "trough" (tags w self)) eqn:Tt; cbn [andb negb ret];
    try reflexivity.
  - destruct (Hdrain eq_refl eq_refl) as (t & ->). reflexivity.
  - destruct (Hpath eq_refl eq_refl) as (p & ->). reflexivity.
Qed.

(** X1: [_validate_config] returns, and then leaves the machine as it
    was, exactly for the configurations that name an ejector, have at most
    one ball switch when the eject is mechanical, have timeouts with
    count delays <= eject timeouts <= ball-missing timeouts <= 60 s, name
    the switch of a confirmation by switch, and lead to a trough (a drain)
    or to the target for unexpected balls (neither drain nor trough). *)
Theorem _validate_config_accepts_exactly (fuel : nat) (self : dev)
  (m m' : Machine) :
  _validate_config w fuel self m = Ok tt m'
  <-> m' = m /\ well_configured w fuel self.
Proof.
  split.
  - apply _validate_config_sound.
  - intros [-> H]. apply _validate_config_complete, H.
Qed.

End ValidationExact.

(** ** Eject chains along the paths of the searches *)

Section ChainSetup.

Variable w : World.
Variable player_controlled : bool.

Lemma setup_eject_chain_next_hop_accepts (path : list dev) :
  forall self m,
    timeouts_cover w ->
    path <> [] ->
    linked w (self :: path) ->
    exists m',
      setup_eject_chain_next_hop w self path player_controlled m = Ok tt m'.
Proof.
  induction path as [| next_hop rest IH]; intros self m Hc Hne Hl;
    [contradiction |].
  destruct Hl as [Hin Hl].
  cbn [setup_eject_chain_next_hop].
  assert (Hmem : mem next_hop (eject_targets (config w self)) = true)
    by (apply mem_In; exact Hin).
  unfold bind at 1. unfold check. rewrite Hmem. cbn [negb ret].
  unfold bind at 1. unfold lookup.
  destruct (dict_get next_hop (eject_timeouts (config w self))) as [v |] eqn:E;
    [| exfalso; exact (Hc self next_hop Hin E)].
  cbn [ret]. unfold bind at 1. unfold emit at 1.
  unfold bind at 1.
  match goal with
  | |- context [(if ?b then modify self ?f else modify self ?g) ?m0] =>
      replace ((if b then modify self f else modify self g) m0)
        with (Ok tt (update_device self (if b then f else g) m0))
        by (destruct b; reflexivity);
      set (m2 := update_device self (if b then f else g) m0)
  end.
  unfold bind at 1.
  destruct rest as [| r rest].
  - cbn [ret]. eexists. reflexivity.
  - destruct (IH next_hop m2 Hc ltac:(discriminate) Hl) as (m3 & ->).
    eexists. reflexivity.
Qed.

Lemma last_cons_default (a : dev) (l : list dev) (d : dev) :
  last (a :: l) d = last l a.
Proof.
  revert a d. induction l as [| b l IH]; intros a d; [reflexivity |].
  change (last (a :: b :: l) d) with (last (b :: l) d).
  rewrite (IH b d), (IH b a). reflexivity.
Qed.

Lemma last_map_Some (l : list dev) (d : dev) :
  l <> [] -> last (map Some l) None = Some (last l d).
Proof.
  induction l as [| a l IH]; [contradiction |]. intros _.
  destruct l as [| b l]; [reflexivity |].
  change (last (map Some (a :: b :: l)) None)
    with (last (map Some (b :: l)) None).
  change (last (a :: b :: l) d) with (last (b :: l) d).
  apply IH. discriminate.
Qed.

(** What an accepted chain does to the available balls and to the eject
    queues of every device. *)
Lemma setup_eject_chain_Ok (self : dev) (path : list dev) (m m' : Machine) :
  setup_eject_chain w self path player_controlled m = Ok tt m' ->
  exists rest,
    path = self :: rest
    /\ rest <> []
    /\ 0 < available_balls (devices m self)
    /\ (forall d,
          available_balls (devices m' d)
          = (if String.eqb d (last rest self) then 1 else 0)
            + ((if String.eqb d self then -1 else 0)
               + available_balls (devices m d)))
    /\ (forall d,
          eject_queue (devices m' d)
          = eject_queue (devices m d)
            ++ entries_of d (chain_entries w player_controlled self rest)).
Proof.
  intros H. unfold setup_eject_chain in H.
  apply bind_Ok in H. destruct H as (available & m0 & Hr & H).
  injection Hr as <- <-.
  apply bind_Ok in H. destruct H as ([] & m0 & Hc & H).
  apply check_Ok in Hc. destruct Hc as [Hpos ->].
  apply Z.leb_gt in Hpos.
  apply bind_Ok in H. destruct H as ([] & m1 & Hm & H).
  injection Hm as <-.
  destruct (last (map Some path) None) as [target |] eqn:Hlast;
    [| discriminate].
  destruct path as [| source rest]; [discriminate |].
  apply bind_Ok in H. destruct H as ([] & m1 & Hc & H).
  apply check_Ok in Hc. destruct Hc as [Hs ->].
  apply negb_false_iff, String.eqb_eq in Hs. subst source.
  apply bind_Ok in H. destruct H as ([] & m2 & Hn & H).
  apply bind_Ok in H. destruct H as ([] & m3 & Hm & H).
  injection Hm as <-. injection H as Hm'.
  apply setup_eject_chain_next_hop_Ok in Hn.
  destruct Hn as (Hne & Ha & Hq).
  rewrite (last_map_Some (self :: rest) self) in Hlast by discriminate.
  injection Hlast as Ht. change (last (self :: rest) self = target) in Ht.
  rewrite last_cons_default in Ht. subst target.
  exists rest. split; [reflexivity |]. split; [assumption |].
  split; [assumption |]. split.
  - intros d. subst m'. cbn [record devices update_device].
    pose proof (Ha d) as Had. cbn [update_device devices] in Had.
    destruct (String.eqb d (last rest self)), (String.eqb d self);
      cbn [available_balls set_available_balls] in *; lia.
  - intros d. subst m'. cbn [record devices update_device].
    assert (E : eject_queue
                  (if String.eqb d (last rest self)
                   then set_available_balls
                          (available_balls (devices m2 d) + 1) (devices m2 d)
                   else devices m2 d)
                = eject_queue (devices m2 d))
      by (destruct (String.eqb d (last rest self)); reflexivity).
    rewrite E, Hq. cbn [update_device devices].
    destruct (String.eqb d self); reflexivity.
Qed.

Lemma setup_eject_chain_accepts (self : dev) (rest : list dev)
  (m : Machine) :
  timeouts_cover w ->
  0 < available_balls (devices m self) ->
  rest <> [] ->
  linked w (self :: rest) ->
  exists m',
    setup_eject_chain w self (self :: rest) player_controlled m = Ok tt m'.
Proof.
  intros Hc Hpos Hne Hl. unfold setup_eject_chain.
  unfold bind at 1. unfold read at 1.
  unfold bind at 1. unfold check.
  destruct (Z.leb_spec (available_balls (devices m self)) 0); [lia |].
  cbn [ret]. unfold bind at 1. unfold modify at 1.
  rewrite (last_map_Some (self :: rest) self) by discriminate.
  unfold bind at 1. rewrite String.eqb_refl. cbn [negb ret].
  unfold bind at 1.
  match goal with
  | |- context [setup_eject_chain_next_hop w self rest _ ?m0] =>
      destruct (setup_eject_chain_next_hop_accepts rest self m0 Hc Hne Hl)
        as (m2 & ->)
  end.
  eexists. reflexivity.
Qed.


Lemma update_available (self : dev) (k : Z) (m : Machine) (d : dev) :
  available_balls
    (devices
       (update_device self
          (fun s => set_available_balls (available_balls s + k) s) m) d)
  = (if String.eqb d self then k else 0) + available_balls (devices m d).
Proof.
  cbn [update_device devices].
  destruct (String.eqb d self); cbn [available_balls set_available_balls];
    lia.
Qed.

Lemma sum_split (f g : dev -> Z) (l : list dev) :
  fold_right Z.add 0 (map (fun d => f d + g d) l)
  = fold_right Z.add 0 (map f l) + fold_right Z.add 0 (map g l).
Proof.
  induction l as [| a l IH]; [reflexivity |]. cbn [map fold_right]. lia.
Qed.

Lemma sum_indicator (x : dev) (k : Z) (l : list dev) :
  NoDup l ->
  fold_right Z.add 0 (map (fun d => if String.eqb d x then k else 0) l)
  = if mem x l then k else 0.
Proof.
  unfold mem.
  induction 1 as [| a l Hn Hd IH]; [reflexivity |].
  cbn [map fold_right existsb]. rewrite IH.
  rewrite (String.eqb_sym a x).
  destruct (String.eqb x a) eqn:E; cbn [orb]; [| lia].
  apply String.eqb_eq in E. subst a.
  fold (mem x l).
  destruct (mem x l) eqn:Hm; [| lia].
  apply mem_In in Hm. contradiction.
Qed.

Lemma last_In (l : list dev) (d : dev) : In (last l d) (d :: l).
Proof.
  revert d. induction l as [| a l IH]; intros d; [now left |].
  right. rewrite last_cons_default. apply IH.
Qed.

Lemma linked_snoc (l : list dev) (a b : dev) :
  linked w (l ++ [a]) ->
  In b (eject_targets (config w a)) ->
  linked w ((l ++ [a]) ++ [b]).
Proof.
  intros Hl Hb. induction l as [| x l IH].
  - cbn. auto.
  - destruct l as [| y l].
    + cbn in *. destruct Hl as [Hx _]. auto.
    + cbn [app linked] in *. destruct Hl as [Hx Hl]. split; [exact Hx |].
      apply IH. exact Hl.
Qed.

Lemma route_linked (self target : dev) (p : list dev) :
  route w self target p ->
  exists rest,
    p = self :: rest /\ rest <> [] /\ last rest self = target
    /\ linked w p.
Proof.
  induction 1 as [self target Hin | self hop target p Hin Hpf Hr IH].
  - exists [target]. cbn. repeat split; auto. discriminate.
  - destruct IH as (rest & -> & Hne & Hlast & Hl).
    exists (hop :: rest). split; [reflexivity |].
    split; [discriminate |]. split.
    + rewrite last_cons_default. exact Hlast.
    + destruct rest; [contradiction |]. cbn [linked] in *. auto.
Qed.

Lemma find_one_available_ball_linked (m : Machine) (fuel : nat) :
  forall self path p,
    find_one_available_ball w fuel m self path = Found p ->
    exists pre, p = pre ++ self :: path /\ linked w (pre ++ [self]).
Proof.
  induction fuel as [| fuel IH]; intros self path p; [discriminate |].
  simpl. destruct (mem self path); [discriminate |].
  destruct ((0 <? available_balls (devices m self))
            && (1 <? S (List.length path))%nat).
  - intros [= <-]. exists []. split; [reflexivity | exact I].
  - intros Hl. apply for_each_target_found in Hl.
    destruct Hl as (b & source & a & He & _ & Hf & _).
    destruct (IH source (self :: path) p Hf) as (pre & -> & Hlk).
    exists (pre ++ [source]). split.
    + rewrite <- app_assoc. reflexivity.
    + apply linked_snoc; [exact Hlk |].
      apply (_source_devices_In w self source).
      rewrite He. apply in_or_app. right. now left.
Qed.


(** The shape of a path from a source with a ball to the requester. *)
Lemma find_one_available_ball_shape (m : Machine) (fuel : nat) (self : dev)
  (p : list dev) :
  find_one_available_ball w fuel m self [] = Found p ->
  exists source rest,
    p = source :: rest
    /\ rest <> []
    /\ last rest source = self
    /\ source <> self
    /\ 0 < available_balls (devices m source)
    /\ linked w p.
Proof.
  intros Hf.
  destruct (find_one_available_ball_found w m fuel self [] p (NoDup_nil _) Hf)
    as (_ & Hnd & Hlen & source & rest & -> & Hpos).
  destruct (find_one_available_ball_linked m fuel self [] _ Hf)
    as (pre & Hp & Hlk).
  rewrite <- Hp in Hlk.
  assert (Hne : rest <> []) by (intros ->; simpl in Hlen; lia).
  assert (Hlast : last rest source = self).
  { rewrite <- (last_cons_default source rest source), Hp.
    apply last_last. }
  exists source, rest. repeat split; auto.
  intros ->. apply NoDup_cons_iff in Hnd. apply (proj1 Hnd).
  rewrite <- Hlast. destruct rest as [| r rest]; [contradiction |].
  destruct (last_In rest r) as [E | Hin].
  - rewrite last_cons_default, <- E. now left.
  - rewrite last_cons_default. right. exact Hin.
Qed.

End ChainSetup.

Section ChainFrame.

Variable w : World.

(** A field that the eject queue and the request condition do not hold is
    the same after every exit of [setup_eject_chain_next_hop]. *)
Lemma setup_eject_chain_next_hop_keeps {A} (f : Device -> A)
  (player_controlled : bool) (path : list dev) :
  (forall v s, f (set_eject_queue v s) = f s) ->
  (forall v s, f (set_eject_request_condition v s) = f s) ->
  forall self m d,
    f (devices
         (final (setup_eject_chain_next_hop w self path player_controlled m))
         d)
    = f (devices m d).
Proof.
  intros Hq Hr.
  induction path as [| next_hop rest IH]; intros self m; [reflexivity |].
  cbn [setup_eject_chain_next_hop].
  set (c := match rest with
            | [] => ret tt
            | _ :: _ =>
                setup_eject_chain_next_hop w next_hop rest player_controlled
            end).
  assert (Hc : forall m2 d, f (devices (final (c m2)) d) = f (devices m2 d)).
  { intros m2. subst c. destruct rest; [reflexivity | apply IH]. }
  clearbody c.
  unfold bind, check, lookup, emit, raise, ret.
  destruct (negb (mem next_hop (eject_targets (config w self))));
    [reflexivity |].
  destruct (dict_get next_hop (eject_timeouts (config w self))) as [v |];
    [| reflexivity].
  match goal with
  | |- context [(if ?b then modify self ?g else modify self ?h) ?m0] =>
      replace ((if b then modify self g else modify self h) m0)
        with (Ok tt (update_device self (if b then g else h) m0))
        by (destruct b; reflexivity);
      set (m2 := update_device self (if b then g else h) m0);
      assert (H2 : forall d, f (devices m2 d) = f (devices m d))
        by (intros d; subst m2; cbn [update_device devices record];
            destruct (String.eqb d self); [destruct b; apply Hq |];
            reflexivity)
  end.
  clearbody m2. specialize (Hc m2).
  destruct (c m2) as [[] m3 | e m3 | m3 | m3]; cbn [final] in *;
    intros d; rewrite <- (H2 d);
    try exact (Hc d).
  unfold modify. cbn [final update_device devices].
  rewrite <- (Hc d).
  destruct (String.eqb d self); [apply Hr | reflexivity].
Qed.

Lemma setup_eject_chain_keeps {A} (f : Device -> A)
  (player_controlled : bool) (self : dev) (path : list dev)
  (m m' : Machine) :
  (forall v s, f (set_eject_queue v s) = f s) ->
  (forall v s, f (set_eject_request_condition v s) = f s) ->
  (forall v s, f (set_available_balls v s) = f s) ->
  setup_eject_chain w self path player_controlled m = Ok tt m' ->
  forall d, f (devices m' d) = f (devices m d).
Proof.
  intros Hq Hr Ha H d. unfold setup_eject_chain in H.
  apply bind_Ok in H. destruct H as (available & m0 & Hread & H).
  injection Hread as <- <-.
  apply bind_Ok in H. destruct H as ([] & m0 & Hc & H).
  apply check_Ok in Hc. destruct Hc as [_ ->].
  apply bind_Ok in H. destruct H as ([] & m1 & Hm & H).
  injection Hm as <-.
  destruct (last (map Some path) None) as [target |]; [| discriminate].
  destruct path as [| source rest]; [discriminate |].
  apply bind_Ok in H. destruct H as ([] & m1 & Hc & H).
  apply check_Ok in Hc. destruct Hc as [_ ->].
  apply bind_Ok in H. destruct H as ([] & m2 & Hn & H).
  apply bind_Ok in H. destruct H as ([] & m3 & Hm & H).
  injection Hm as <-. injection H as <-.
  match type of Hn with
  | _ _ _ _ _ ?m1 = _ =>
      pose proof (setup_eject_chain_next_hop_keeps f player_controlled rest
                    Hq Hr self m1 d) as Hk
  end.
  rewrite Hn in Hk. cbn [final] in Hk.
  cbn [record devices update_device].
  transitivity (f (devices m2 d)).
  - destruct (String.eqb d target); [apply Ha | reflexivity].
  - rewrite Hk. cbn [update_device devices].
    destruct (String.eqb d self); [apply Ha | reflexivity].
Qed.

End ChainFrame.

Lemma raise_final {A} (r : result A) (e : exn) :
  match r with Raise e' _ => e' = e | _ => False end ->
  r = Raise e (final r).
Proof. destruct r; intros H; try contradiction. subst. reflexivity. Qed.

Lemma Ok_final {A} (r : result A) (a : A) :
  match r with Ok a' _ => a' = a | _ => False end ->
  r = Ok a (final r).
Proof. destruct r; intros H; try contradiction. subst. reflexivity. Qed.

Section ExampleCover.

Local Arguments String.eqb : simpl never.

Ltac by_device d :=
  repeat match goal with
    | H : context [String.eqb ?a d] |- _ =>
        destruct (String.eqb_spec a d); [subst d |]; simpl in H
    end.

Lemma line_world_covered : timeouts_cover line_world.
Proof.
  intros d t Hin.
  unfold line_world, world_of, config_of in Hin. simpl in Hin.
  by_device d;
    repeat (destruct Hin as [<- | Hin]; [vm_compute; discriminate |]);
    destruct Hin.
Qed.

Lemma shortcut_world_covered : timeouts_cover shortcut_world.
Proof.
  intros d t Hin.
  unfold shortcut_world, world_of, config_of in Hin. simpl in Hin.
  by_device d;
    repeat (destruct Hin as [<- | Hin]; [vm_compute; discriminate |]);
    destruct Hin.
Qed.

Lemma plunger_world_covered (eject hold : option string) (mechanical : bool) :
  timeouts_cover (plunger_world eject hold mechanical).
Proof.
  intros d t Hin.
  unfold plunger_world, world_of, config_of in *. simpl in *.
  by_device d;
    repeat (destruct Hin as [<- | Hin]; [vm_compute; discriminate |]);
    destruct Hin.
Qed.

End ExampleCover.

Section ChainPaths.


Variable w : World.
Variable player_controlled : bool.

(** X4: [setup_eject_chain], when it accepts a path, moves one available
    ball and loses none: the available balls of any devices that include
    the path, each counted once, add up to what they were. *)
Theorem setup_eject_chain_conserves (self : dev) (path l : list dev)
  (m m' : Machine) :
  setup_eject_chain w self path player_controlled m = Ok tt m' ->
  NoDup l ->
  incl path l ->
  total_available l m' = total_available l m.
Proof.
  intros H Hnd Hincl.
  destruct (setup_eject_chain_Ok w player_controlled self path m m' H)
    as (rest & -> & Hne & Hpos & Ha & _).
  unfold total_available.
  rewrite (map_ext _ _ Ha), !sum_split, !sum_indicator by assumption.
  assert (Hs : mem self l = true) by (apply mem_In, Hincl; now left).
  assert (Ht : mem (last rest self) l = true)
    by (apply mem_In, Hincl, last_In).
  rewrite Hs, Ht. lia.
Qed.

(** X5: when [setup_eject_chain] raises, either the source has no
    available ball and nothing has changed, or the source has already lost
    one available ball that no device has gained. *)
Theorem setup_eject_chain_failure (self : dev) (path : list dev)
  (m m' : Machine) (e : exn) :
  setup_eject_chain w self path player_controlled m = Raise e m' ->
  (available_balls (devices m self) <= 0 /\ m' = m)
  \/ (0 < available_balls (devices m self)
      /\ forall d,
           available_balls (devices m' d)
           = (if String.eqb d self then -1 else 0)
             + available_balls (devices m d)).
Proof.
  unfold setup_eject_chain.
  unfold bind at 1. unfold read at 1.
  unfold bind at 1. unfold check.
  destruct (Z.leb_spec (available_balls (devices m self)) 0) as [Hle | Hlt].
  { intros [= _ <-]. left. auto. }
  intros H. right. split; [exact Hlt |].
  cbn [ret] in H. unfold bind at 1 in H. unfold modify at 1 in H.
  set (m1 := update_device self
               (fun s => set_available_balls (available_balls s - 1) s) m)
    in H.
  assert (H1 : forall d,
             available_balls (devices m1 d)
             = (if String.eqb d self then -1 else 0)
               + available_balls (devices m d))
    by (intros d; exact (update_available self (-1) m d)).
  clearbody m1.
  destruct (last (map Some path) None) as [target |];
    [| injection H as _ <-; exact H1].
  destruct path as [| source rest]; [injection H as _ <-; exact H1 |].
  unfold bind at 1 in H.
  destruct (negb (String.eqb source self));
    [injection H as _ <-; exact H1 |].
  cbn [ret] in H. unfold bind at 1 in H.
  pose proof (setup_eject_chain_next_hop_keeps w available_balls
                player_controlled rest (fun _ _ => eq_refl)
                (fun _ _ => eq_refl) self m1) as Hs.
  destruct (setup_eject_chain_next_hop w self rest player_controlled m1)
    as [[] m2 | e2 m2 | m2 | m2]; try discriminate H.
  injection H as _ <-. cbn [final] in Hs.
  intros d. rewrite (Hs d). apply H1.
Qed.

(** X6: where every eject target has an eject timeout, a path that
    [find_path_to_target] returns is accepted by [setup_eject_chain] of a
    device with an available ball, which hands that ball to the target. *)
Theorem find_path_to_target_accepted (fuel : nat) (self target : dev)
  (p : list dev) (m : Machine) :
  timeouts_cover w ->
  find_path_to_target w fuel self target = Found p ->
  0 < available_balls (devices m self) ->
  exists m',
    setup_eject_chain w self p player_controlled m = Ok tt m'
    /\ forall d,
         available_balls (devices m' d)
         = (if String.eqb d target then 1 else 0)
           + ((if String.eqb d self then -1 else 0)
              + available_balls (devices m d)).
Proof.
  intros Hc Hf Hpos.
  apply (proj1 (find_path_to_target_correct w fuel target self)) in Hf.
  apply first_route_sound in Hf.
  destruct (route_linked w self target p Hf) as (rest & -> & Hne & Hl & Hlk).
  destruct (setup_eject_chain_accepts w player_controlled self rest m
              Hc Hpos Hne Hlk) as (m' & Hm').
  exists m'. split; [exact Hm' |].
  destruct (setup_eject_chain_Ok w player_controlled self _ m m' Hm')
    as (rest' & [= <-] & _ & _ & Ha & _).
  rewrite Hl in Ha. exact Ha.
Qed.

(** X7: where every eject target has an eject timeout, a path that
    [find_one_available_ball] returns is accepted by [setup_eject_chain] of
    its first device, another device than the requester, which hands one
    available ball to the requester. *)
Theorem find_one_available_ball_accepted (fuel : nat) (self : dev)
  (p : list dev) (m : Machine) :
  timeouts_cover w ->
  find_one_available_ball w fuel m self [] = Found p ->
  exists source m',
    hd_error p = Some source
    /\ source <> self
    /\ setup_eject_chain w source p player_controlled m = Ok tt m'
    /\ forall d,
         available_balls (devices m' d)
         = (if String.eqb d self then 1 else 0)
           + ((if String.eqb d source then -1 else 0)
              + available_balls (devices m d)).
Proof.
  intros Hc Hf.
  destruct (find_one_available_ball_shape w m fuel self p Hf)
    as (source & rest & -> & Hne & Hlast & Hs & Hpos & Hlk).
  destruct (setup_eject_chain_accepts w player_controlled source rest m
              Hc Hpos Hne Hlk) as (m' & Hm').
  exists source, m'. split; [reflexivity |]. split; [exact Hs |].
  split; [exact Hm' |].
  destruct (setup_eject_chain_Ok w player_controlled source _ m m' Hm')
    as (rest' & [= <-] & _ & _ & Ha & _).
  rewrite Hlast in Ha. exact Ha.
Qed.

End ChainPaths.

Lemma setup_eject_chain_conserves_witness :
  let m := machine_of [("A", holding 1)] [] in
  let m' := final (setup_eject_chain line_world "A" ["A"; "B"; "C"] false m) in
  setup_eject_chain line_world "A" ["A"; "B"; "C"] false m = Ok tt m'
  /\ NoDup ["A"; "B"; "C"]
  /\ total_available ["A"; "B"; "C"] m' = 1.
Proof.
  intros m m'.
  assert (Hok : setup_eject_chain line_world "A" ["A"; "B"; "C"] false m
                = Ok tt m').
  { apply returns_final. vm_compute. reflexivity. }
  assert (Hnd : NoDup ["A"; "B"; "C"]).
  { repeat constructor; simpl; intuition discriminate. }
  split; [exact Hok |]. split; [exact Hnd |].
  exact (setup_eject_chain_conserves line_world false "A" _ _ m m' Hok Hnd
           (incl_refl _)).
Defined.

Lemma setup_eject_chain_failure_witness :
  let m := machine_of [("A", holding 1)] [] in
  let r := setup_eject_chain line_world "A" ["A"; "C"] false m in
  r = Raise (AssertionError "Broken path") (final r)
  /\ available_balls (devices m "A") = 1
  /\ available_balls (devices (final r) "A") = 0.
Proof.
  intros m r.
  assert (Hr : r = Raise (AssertionError "Broken path") (final r)).
  { apply raise_final. vm_compute. reflexivity. }
  split; [exact Hr |]. split; [reflexivity |].
  destruct (setup_eject_chain_failure line_world false "A" ["A"; "C"] m
              (final r) (AssertionError "Broken path") Hr)
    as [[Hle _] | [_ Ha]].
  - vm_compute in Hle. exfalso. apply Hle. reflexivity.
  - rewrite (Ha "A"). reflexivity.
Defined.

Lemma find_path_to_target_accepted_witness :
  let m := machine_of [("A", holding 1)] [] in
  timeouts_cover shortcut_world
  /\ find_path_to_target shortcut_world 3 "A" "C" = Found ["A"; "C"]
  /\ exists m',
       setup_eject_chain shortcut_world "A" ["A"; "C"] false m = Ok tt m'
       /\ available_balls (devices m' "A") = 0
       /\ available_balls (devices m' "C") = 1.
Proof.
  intros m.
  assert (Hc : timeouts_cover shortcut_world) by exact shortcut_world_covered.
  assert (Hf : find_path_to_target shortcut_world 3 "A" "C"
               = Found ["A"; "C"]) by reflexivity.
  assert (Hp : 0 < available_balls (devices m "A")) by reflexivity.
  split; [exact Hc |]. split; [exact Hf |].
  destruct (find_path_to_target_accepted shortcut_world false 3 "A" "C" _ m
              Hc Hf Hp) as (m' & Hm' & Ha).
  exists m'. split; [exact Hm' |].
  rewrite (Ha "A"), (Ha "C"). split; reflexivity.
Defined.

Lemma find_one_available_ball_accepted_witness :
  let m := machine_of [("A", holding 1)] [] in
  timeouts_cover line_world
  /\ find_one_available_ball line_world 3 m "C" [] = Found ["A"; "B"; "C"]
  /\ exists m',
       setup_eject_chain line_world "A" ["A"; "B"; "C"] false m = Ok tt m'
       /\ available_balls (devices m' "A") = 0
       /\ available_balls (devices m' "C") = 1.
Proof.
  intros m.
  assert (Hc : timeouts_cover line_world) by exact line_world_covered.
  assert (Hf : find_one_available_ball line_world 3 m "C" []
               = Found ["A"; "B"; "C"]) by reflexivity.
  split; [exact Hc |]. split; [exact Hf |].
  destruct (find_one_available_ball_accepted line_world false 3 "C" _ m
              Hc Hf) as (source & m' & Hs & _ & Hm' & Ha).
  injection Hs as <-.
  exists m'. split; [exact Hm' |].
  rewrite (Ha "A"), (Ha "C"). split; reflexivity.
Defined.

(** ** Requests and ejects on demand *)

Section RequestSetup.

Variable w : World.

Lemma search_result_Ok {A} (r : search A) (m m' : Machine) (o : option A) :
  search_result r m = Ok o m' ->
  m' = m
  /\ match o with
     | Some a => r = Found a
     | None => r = NotFound
     end.
Proof.
  destruct r; cbn; intros H; try discriminate; injection H as <- <-; auto.
Qed.

Lemma find_one_available_ball_ext (m1 m2 : Machine) :
  (forall d, available_balls (devices m1 d) = available_balls (devices m2 d)) ->
  forall fuel self path,
    find_one_available_ball w fuel m1 self path
    = find_one_available_ball w fuel m2 self path.
Proof.
  intros He. induction fuel as [| fuel IH]; intros self path; [reflexivity |].
  cbn [find_one_available_ball]. rewrite He.
  destruct (mem self path); [reflexivity |].
  destruct ((0 <? available_balls (devices m2 self))
            && (1 <? List.length (self :: path))%nat); [reflexivity |].
  induction (_source_devices w self) as [| s l IHl]; [reflexivity |].
  cbn [for_each_target]. rewrite IH, IHl. reflexivity.
Qed.

(** The two ways in which [_setup_or_queue_eject_to_target] returns: the
    request was queued, or a chain was set up from some source. *)
Lemma _setup_or_queue_eject_to_target_Ok (fuel : nat) (self target : dev)
  (player_controlled : bool) (m m' : Machine) (b : bool) :
  _setup_or_queue_eject_to_target w fuel self target player_controlled m
  = Ok b m' ->
  (b = false
   /\ find_one_available_ball w fuel m self [] = NotFound
   /\ m' = update_device self
             (fun s =>
                set_ball_requests
                  (ball_requests s ++ [(target, player_controlled)]) s) m)
  \/ (b = true
      /\ exists source rest,
           setup_eject_chain w source (source :: rest) player_controlled m
           = Ok tt m').
Proof.
  intros H. unfold _setup_or_queue_eject_to_target in H.
  apply bind_Ok in H. destruct H as (path_to_target & m0 & Hs & H).
  apply search_result_Ok in Hs. destruct Hs as [-> _].
  apply bind_Ok in H. destruct H as (available & m0 & Hr & H).
  injection Hr as <- <-.
  apply bind_Ok in H. destruct H as (path & m1 & Hp & H).
  assert (Hpath :
    (path = None
     /\ find_one_available_ball w fuel m self [] = NotFound
     /\ m1 = update_device self
               (fun s =>
                  set_ball_requests
                    (ball_requests s ++ [(target, player_controlled)]) s) m)
    \/ (path <> None /\ m1 = m)).
  { destruct ((0 <? available_balls (devices m self))
              && negb (String.eqb self target)).
    - injection Hp as <- <-. right. split; [discriminate | reflexivity].
    - apply bind_Ok in Hp. destruct Hp as (found & m2 & Hs & Hp).
      apply search_result_Ok in Hs. destruct Hs as [-> Hf].
      destruct found as [p |].
      + right. destruct (negb (String.eqb target self)).
        * apply bind_Ok in Hp. destruct Hp as ([] & m2 & Hc & Hp).
          apply check_Ok in Hc. destruct Hc as [_ ->].
          destruct path_to_target as [[| x rest] |]; try discriminate Hp.
          injection Hp as <- <-. split; [discriminate | reflexivity].
        * injection Hp as <- <-. split; [discriminate | reflexivity].
      + left. apply bind_Ok in Hp. destruct Hp as ([] & m2 & Hm & Hp).
        injection Hm as <-. injection Hp as <- <-. auto. }
  destruct Hpath as [(-> & Hn & ->) | (Hne & ->)].
  - injection H as <- <-. left. auto.
  - destruct path as [[[| source rest] |] |]; try discriminate H;
      [| contradiction].
    apply bind_Ok in H. destruct H as ([] & m2 & Hc & H).
    injection H as <- <-. right. split; [reflexivity |].
    exists source, rest. exact Hc.
Qed.

(** A request for the device itself when no ball is available anywhere. *)
Lemma _setup_or_queue_eject_to_target_queues (fuel : nat)
  (self target : dev) (player_controlled : bool) (m : Machine) :
  find_path_to_target w fuel self target <> Exhausted ->
  available_balls (devices m self) <= 0 \/ self = target ->
  find_one_available_ball w fuel m self [] = NotFound ->
  _setup_or_queue_eject_to_target w fuel self target player_controlled m
  = Ok false
      (update_device self
         (fun s =>
            set_ball_requests
              (ball_requests s ++ [(target, player_controlled)]) s) m).
Proof.
  intros Hne Hcond Hn. unfold _setup_or_queue_eject_to_target.
  unfold bind at 1.
  assert (Hs : exists o,
             search_result (find_path_to_target w fuel self target) m
             = Ok o m).
  { destruct (find_path_to_target w fuel self target);
      [eexists; reflexivity .. | contradiction]. }
  destruct Hs as (o & ->).
  unfold bind at 1. unfold read at 1.
  assert (Hc : (0 <? available_balls (devices m self))
               && negb (String.eqb self target) = false).
  { destruct Hcond as [Hle | ->].
    - destruct (Z.ltb_spec 0 (available_balls (devices m self)));
        [lia | reflexivity].
    - rewrite String.eqb_refl. apply andb_false_r. }
  rewrite Hc. unfold bind at 1. unfold bind at 1. rewrite Hn.
  reflexivity.
Qed.

(** A request for the device itself when some source has a ball. *)
Lemma _setup_or_queue_eject_to_target_serves (fuel : nat) (self : dev)
  (player_controlled : bool) (m : Machine) (source : dev)
  (rest : list dev) :
  find_path_to_target w fuel self self <> Exhausted ->
  find_one_available_ball w fuel m self [] = Found (source :: rest) ->
  _setup_or_queue_eject_to_target w fuel self self player_controlled m
  = (setup_eject_chain w source (source :: rest) player_controlled ;;
     ret true) m.
Proof.
  intros Hne Hf. unfold _setup_or_queue_eject_to_target.
  unfold bind at 1.
  assert (Hs : exists o,
             search_result (find_path_to_target w fuel self self) m
             = Ok o m).
  { destruct (find_path_to_target w fuel self self);
      [eexists; reflexivity .. | contradiction]. }
  destruct Hs as (o & ->).
  unfold bind at 1. unfold read at 1.
  rewrite String.eqb_refl, andb_false_r.
  unfold bind at 1. unfold bind at 1. rewrite Hf.
  cbn [search_result ret negb]. reflexivity.
Qed.

End RequestSetup.

Section RequestQueue.


Variable w : World.

Lemma request_step (fuel : nat) (self : dev) (player_controlled : bool)
  (m : Machine) :
  timeouts_cover w ->
  find_path_to_target w fuel self self <> Exhausted ->
  (S (List.length (ball_devices w)) < fuel)%nat ->
  exists b m',
    _setup_or_queue_eject_to_target w fuel self self player_controlled m
    = Ok b m'
    /\ if b
       then ball_requests (devices m' self) = ball_requests (devices m self)
            /\ available_balls (devices m' self)
               = available_balls (devices m self) + 1
       else ball_requests (devices m' self)
            = ball_requests (devices m self) ++ [(self, player_controlled)]
            /\ available_balls (devices m' self)
               = available_balls (devices m self).
Proof.
  intros Hc Hne Hfuel.
  destruct (find_one_available_ball w fuel m self []) as [p | |] eqn:Hf.
  - destruct (find_one_available_ball_shape w m fuel self p Hf)
      as (source & rest & -> & Hr & Hlast & Hs & Hpos & Hlk).
    rewrite (_setup_or_queue_eject_to_target_serves w fuel self
               player_controlled m source rest Hne Hf).
    destruct (setup_eject_chain_accepts w player_controlled source rest m
                Hc Hpos Hr Hlk) as (m' & Hm').
    unfold bind. rewrite Hm'. exists true, m'. split; [reflexivity |].
    split.
    + exact (setup_eject_chain_keeps w ball_requests player_controlled
               source (source :: rest) m m' (fun _ _ => eq_refl)
               (fun _ _ => eq_refl) (fun _ _ => eq_refl) Hm' self).
    + destruct (setup_eject_chain_Ok w player_controlled source _ m m' Hm')
        as (rest' & [= <-] & _ & _ & Ha & _).
      rewrite (Ha self), Hlast, String.eqb_refl.
      destruct (String.eqb_spec self source); [congruence | lia].
  - rewrite (_setup_or_queue_eject_to_target_queues w fuel self self
               player_controlled m Hne (or_intror eq_refl) Hf).
    exists false. eexists. split; [reflexivity |].
    cbn [update_device devices]. rewrite String.eqb_refl. split; reflexivity.
  - exfalso. exact (find_one_available_ball_total w m self fuel Hfuel Hf).
Qed.

Lemma request_loop (fuel : nat) (self : dev) :
  timeouts_cover w ->
  find_path_to_target w fuel self self <> Exhausted ->
  (S (List.length (ball_devices w)) < fuel)%nat ->
  forall n m,
    exists m' k,
      repeat_times n
        (_setup_or_queue_eject_to_target w fuel self self false) m
      = Ok tt m'
      /\ (k <= n)%nat
      /\ ball_requests (devices m' self)
         = ball_requests (devices m self) ++ repeat (self, false) k
      /\ available_balls (devices m' self)
         = available_balls (devices m self) + Z.of_nat (n - k).
Proof.
  intros Hc Hne Hfuel. induction n as [| n IH]; intros m.
  - exists m, O. cbn. rewrite app_nil_r. repeat split; auto. lia.
  - cbn [repeat_times]. unfold bind at 1.
    destruct (request_step fuel self false m Hc Hne Hfuel)
      as (b & m1 & -> & Hb).
    destruct (IH m1) as (m' & k & -> & Hk & Hr & Ha).
    destruct b; destruct Hb as [Hr1 Ha1].
    + exists m', k. split; [reflexivity |]. split; [lia |].
      rewrite Hr, Hr1, Ha, Ha1. split; [reflexivity | lia].
    + exists m', (S k). split; [reflexivity |]. split; [lia |].
      rewrite Hr, Hr1, Ha, Ha1, <- app_assoc. split; [reflexivity |].
      replace (S n - S k)%nat with (n - k)%nat by lia. lia.
Qed.

(** X8: [request_ball] returns the number it was given, and each of the
    requests it makes either raises the available balls of the device by
    one, through a chain from a device that has a ball, or is appended to
    [ball_requests]: none is lost. *)
Theorem request_ball_accounts (fuel : nat) (self : dev) (nballs : Z)
  (m : Machine) :
  timeouts_cover w ->
  find_path_to_target w fuel self self <> Exhausted ->
  (S (List.length (ball_devices w)) < fuel)%nat ->
  exists m' k,
    request_ball w fuel self nballs m = Ok nballs m'
    /\ (k <= Z.to_nat nballs)%nat
    /\ ball_requests (devices m' self)
       = ball_requests (devices m self) ++ repeat (self, false) k
    /\ available_balls (devices m' self)
       = available_balls (devices m self) + Z.of_nat (Z.to_nat nballs - k).
Proof.
  intros Hc Hne Hfuel. unfold request_ball, bind.
  destruct (request_loop fuel self Hc Hne Hfuel (Z.to_nat nballs) m)
    as (m' & k & -> & H).
  exists m', k. split; [reflexivity | exact H].
Qed.

Lemma eject_step (fuel : nat) (self target : dev) (m : Machine) :
  timeouts_cover w ->
  In target (eject_targets (config w self)) ->
  self <> target ->
  0 < available_balls (devices m self) ->
  exists m',
    _setup_or_queue_eject_to_target w (S fuel) self target false m
    = Ok true m'
    /\ (forall d,
          available_balls (devices m' d)
          = (if String.eqb d target then 1 else 0)
            + ((if String.eqb d self then -1 else 0)
               + available_balls (devices m d)))
    /\ eject_queue (devices m' self)
       = eject_queue (devices m self) ++ [chain_entry w false self target].
Proof.
  intros Hc Hin Hne Hpos.
  assert (Hl : linked w [self; target]) by (cbn; auto).
  destruct (setup_eject_chain_accepts w false self [target] m Hc Hpos
              ltac:(discriminate) Hl) as (m' & Hm').
  exists m'. split.
  - unfold _setup_or_queue_eject_to_target.
    cbn [find_path_to_target].
    rewrite (proj2 (mem_In target _) Hin).
    cbn [search_result]. unfold bind at 1. cbn [ret].
    unfold bind at 1. unfold read at 1.
    destruct (Z.ltb_spec 0 (available_balls (devices m self))); [| lia].
    destruct (String.eqb_spec self target); [contradiction |].
    cbn [andb negb]. unfold bind at 1. cbn [ret].
    unfold bind. rewrite Hm'. reflexivity.
  - destruct (setup_eject_chain_Ok w false self _ m m' Hm')
      as (rest' & [= <-] & _ & _ & Ha & Hq).
    split; [exact Ha |].
    rewrite (Hq self). cbn [chain_entries].
    rewrite entries_of_cons, String.eqb_refl. reflexivity.
Qed.

Lemma eject_loop (fuel : nat) (self target : dev) :
  timeouts_cover w ->
  In target (eject_targets (config w self)) ->
  self <> target ->
  forall n m,
    Z.of_nat n <= available_balls (devices m self) ->
    exists m',
      repeat_times n
        (_setup_or_queue_eject_to_target w (S fuel) self target false) m
      = Ok tt m'
      /\ available_balls (devices m' self)
         = available_balls (devices m self) - Z.of_nat n
      /\ available_balls (devices m' target)
         = available_balls (devices m target) + Z.of_nat n
      /\ eject_queue (devices m' self)
         = eject_queue (devices m self)
           ++ repeat (chain_entry w false self target) n.
Proof.
  intros Hc Hin Hne. induction n as [| n IH]; intros m Hle.
  - exists m. cbn [repeat_times repeat Z.of_nat]. rewrite app_nil_r.
    repeat split; auto; lia.
  - cbn [repeat_times]. unfold bind at 1.
    destruct (eject_step fuel self target m Hc Hin Hne ltac:(lia))
      as (m1 & -> & Ha1 & Hq1).
    pose proof (Ha1 self) as Hs. pose proof (Ha1 target) as Ht.
    rewrite String.eqb_refl in Hs, Ht.
    destruct (String.eqb_spec self target); [contradiction |].
    destruct (String.eqb_spec target self); [congruence |].
    destruct (IH m1 ltac:(lia)) as (m' & -> & Ha & Hb & Hq).
    exists m'. split; [reflexivity |].
    rewrite Ha, Hb, Hq, Hq1, Hs, Ht, <- app_assoc.
    repeat split; lia.
Qed.

(** X9: [eject_all] of a device with [n > 0] available balls, to one of
    its eject targets or by default to the target for unexpected balls,
    returns [True], leaves the device no available ball, gives the target
    [n] more, and queues [n] ejects to the target. *)
Theorem eject_all_moves_every_ball (fuel : nat) (self : dev)
  (target : option dev) (m : Machine) :
  let t := match target with
           | Some t => t
           | None => _target_on_unexpected_ball (config w self)
           end in
  let n := available_balls (devices m self) in
  timeouts_cover w ->
  In t (eject_targets (config w self)) ->
  self <> t ->
  0 < n ->
  exists m',
    eject_all w (S fuel) self target m = Ok true m'
    /\ available_balls (devices m' self) = 0
    /\ available_balls (devices m' t) = available_balls (devices m t) + n
    /\ eject_queue (devices m' self)
       = eject_queue (devices m self)
         ++ repeat (chain_entry w false self t) (Z.to_nat n).
Proof.
  intros t n Hc Hin Hne Hpos.
  destruct (eject_loop fuel self t Hc Hin Hne (Z.to_nat n) m ltac:(lia))
    as (m' & Hm' & Ha & Hb & Hq).
  exists m'. split.
  - unfold eject_all, bind, read.
    destruct (Z.ltb_spec 0 (available_balls (devices m self)));
      [| subst n; lia].
    unfold eject_balls. fold t. fold n. rewrite Hm'. reflexivity.
  - rewrite Ha, Hb, Hq. fold n. repeat split; try lia.
Qed.

(** X10: when the device has no available ball of its own, or the first
    request is for the device itself, and no device upstream has a ball to
    give, [_source_device_balls_available] moves the first request to the
    back of [ball_requests] and changes nothing else. *)
Theorem _source_device_balls_available_requeues (fuel : nat) (self : dev)
  (m : Machine) (target : dev) (player_controlled : bool)
  (rest : list (dev * bool)) :
  ball_requests (devices m self) = (target, player_controlled) :: rest ->
  find_path_to_target w fuel self target <> Exhausted ->
  available_balls (devices m self) <= 0 \/ self = target ->
  find_one_available_ball w fuel m self [] = NotFound ->
  exists m',
    _source_device_balls_available w fuel self m = Ok None m'
    /\ ball_requests (devices m' self) = rest ++ [(target, player_controlled)]
    /\ (forall d, d <> self -> devices m' d = devices m d)
    /\ available_balls (devices m' self) = available_balls (devices m self)
    /\ eject_queue (devices m' self) = eject_queue (devices m self)
    /\ trace m' = trace m.
Proof.
  intros Hreq Hne Hcond Hn.
  unfold _source_device_balls_available.
  unfold bind at 1. unfold read at 1. rewrite Hreq.
  unfold bind at 1. unfold modify at 1.
  set (m1 := update_device self (set_ball_requests rest) m).
  assert (Ha : forall d,
             available_balls (devices m1 d) = available_balls (devices m d)).
  { intros d. subst m1. cbn [update_device devices].
    destruct (String.eqb d self); reflexivity. }
  assert (Hn1 : find_one_available_ball w fuel m1 self [] = NotFound)
    by (rewrite (find_one_available_ball_ext w m1 m Ha); exact Hn).
  assert (Hcond1 : available_balls (devices m1 self) <= 0 \/ self = target)
    by (rewrite Ha; exact Hcond).
  unfold bind at 1.
  rewrite (_setup_or_queue_eject_to_target_queues w fuel self target
             player_controlled m1 Hne Hcond1 Hn1).
  eexists. split; [reflexivity |].
  subst m1. cbn [update_device devices trace].
  rewrite String.eqb_refl. cbn.
  repeat split.
  intros d Hd. destruct (String.eqb_spec d self); [contradiction |].
  reflexivity.
Qed.

(** X11: whenever [_source_device_balls_available] returns, it has taken
    the first request and either served it (it returns [False]) or put it
    at the back (it returns [None]); the other requests keep their order,
    and with no request it does nothing. *)
Theorem _source_device_balls_available_keeps_requests (fuel : nat)
  (self : dev) (m m' : Machine) (r : option bool) :
  _source_device_balls_available w fuel self m = Ok r m' ->
  match ball_requests (devices m self) with
  | [] => r = None /\ m' = m
  | request :: rest =>
      (r = Some false /\ ball_requests (devices m' self) = rest)
      \/ (r = None /\ ball_requests (devices m' self) = rest ++ [request])
  end.
Proof.
  intros H. unfold _source_device_balls_available in H.
  apply bind_Ok in H. destruct H as (requests & m0 & Hr & H).
  injection Hr as <- <-.
  destruct (ball_requests (devices m self)) as [| [target pc] rest] eqn:E.
  - injection H as <- <-. auto.
  - apply bind_Ok in H. destruct H as ([] & m1 & Hm & H).
    injection Hm as <-.
    apply bind_Ok in H. destruct H as (b & m2 & Hs & H).
    assert (E1 : ball_requests
                   (devices (update_device self (set_ball_requests rest) m)
                      self) = rest)
      by (cbn [update_device devices]; rewrite String.eqb_refl; reflexivity).
    apply _setup_or_queue_eject_to_target_Ok in Hs.
    destruct Hs as [(-> & _ & ->) | (-> & source & path & Hc)].
    + injection H as <- <-. right. split; [reflexivity |].
      cbn [update_device devices]. rewrite String.eqb_refl. reflexivity.
    + injection H as <- <-. left. split; [reflexivity |].
      rewrite (setup_eject_chain_keeps w ball_requests pc source
                 (source :: path) _ _ (fun _ _ => eq_refl)
                 (fun _ _ => eq_refl) (fun _ _ => eq_refl) Hc self).
      exact E1.
Qed.

End RequestQueue.

Lemma request_ball_accounts_witness :
  let m := machine_of [("A", holding 1)] [] in
  timeouts_cover line_world
  /\ find_path_to_target line_world 5 "C" "C" <> Exhausted
  /\ (S (List.length (ball_devices line_world)) < 5)%nat
  /\ exists m' k,
       request_ball line_world 5 "C" 2 m = Ok 2 m'
       /\ (k <= 2)%nat
       /\ ball_requests (devices m' "C") = repeat ("C", false) k
       /\ available_balls (devices m' "C") = Z.of_nat (2 - k).
Proof.
  intros m.
  assert (Hc : timeouts_cover line_world) by exact line_world_covered.
  assert (Hf : find_path_to_target line_world 5 "C" "C" <> Exhausted)
    by (vm_compute; discriminate).
  assert (Hl : (S (List.length (ball_devices line_world)) < 5)%nat)
    by (vm_compute; lia).
  split; [exact Hc |]. split; [exact Hf |]. split; [exact Hl |].
  exact (request_ball_accounts line_world 5 "C" 2 m Hc Hf Hl).
Defined.

Lemma eject_all_moves_every_ball_witness :
  let w := plunger_world (Some "c_plunger") None false in
  let m := machine_of [("plunger", holding 2)] [] in
  timeouts_cover w
  /\ In "playfield" (eject_targets (config w "plunger"))
  /\ exists m',
       eject_all w 1 "plunger" None m = Ok true m'
       /\ available_balls (devices m' "plunger") = 0
       /\ available_balls (devices m' "playfield") = 2
       /\ eject_queue (devices m' "plunger")
          = [(Some "playfield", false, None);
             (Some "playfield", false, None)].
Proof.
  intros w m.
  assert (Hc : timeouts_cover w) by apply plunger_world_covered.
  assert (Hin : In "playfield" (eject_targets (config w "plunger")))
    by (vm_compute; auto).
  assert (Hne : "plunger" <> "playfield") by discriminate.
  assert (Hp : 0 < available_balls (devices m "plunger")) by reflexivity.
  split; [exact Hc |]. split; [exact Hin |].
  exact (eject_all_moves_every_ball w 0 "plunger" None m Hc Hin Hne Hp).
Defined.

Lemma _source_device_balls_available_requeues_witness :
  let m := machine_of [("C", requesting [("C", false); ("C", true)])] [] in
  exists m',
    _source_device_balls_available line_world 5 "C" m = Ok None m'
    /\ ball_requests (devices m' "C") = [("C", true); ("C", false)].
Proof.
  intros m.
  assert (Hq : ball_requests (devices m "C") = [("C", false); ("C", true)])
    by reflexivity.
  assert (Hf : find_path_to_target line_world 5 "C" "C" <> Exhausted)
    by (vm_compute; discriminate).
  assert (Hn : find_one_available_ball line_world 5 m "C" [] = NotFound)
    by reflexivity.
  destruct (_source_device_balls_available_requeues line_world 5 "C" m
              "C" false _ Hq Hf (or_intror eq_refl) Hn)
    as (m' & Hm' & Hr & _).
  exists m'. split; [exact Hm' | exact Hr].
Defined.

Lemma _source_device_balls_available_keeps_requests_witness :
  let m := machine_of [("A", holding 1); ("C", requesting [("C", false)])] []
  in
  let r := _source_device_balls_available line_world 5 "C" m in
  r = Ok (Some false) (final r)
  /\ ball_requests (devices (final r) "C") = [].
Proof.
  intros m r.
  assert (Hr : r = Ok (Some false) (final r)).
  { apply Ok_final. vm_compute. reflexivity. }
  split; [exact Hr |].
  pose proof (_source_device_balls_available_keeps_requests line_world 5
                "C" m (final r) (Some false) Hr) as H.
  cbv zeta in H.
  change (ball_requests (devices m "C")) with [("C", false)] in H.
  destruct H as [[_ H] | [H _]]; [exact H | discriminate H].
Defined.

Section Serving.

Variable w : World.

(** X16: a device that has an available ball serves the first of its
    requests for another target to which [find_path_to_target] finds a
    path: [_source_device_balls_available] returns [False], the request is
    gone from [ball_requests], and the ball is handed to the target. *)
Theorem _source_device_balls_available_serves (fuel : nat) (self : dev)
  (m : Machine) (target : dev) (player_controlled : bool)
  (rest : list (dev * bool)) (p : list dev) :
  timeouts_cover w ->
  ball_requests (devices m self) = (target, player_controlled) :: rest ->
  0 < available_balls (devices m self) ->
  self <> target ->
  find_path_to_target w fuel self target = Found p ->
  exists m',
    _source_device_balls_available w fuel self m = Ok (Some false) m'
    /\ ball_requests (devices m' self) = rest
    /\ forall d,
         available_balls (devices m' d)
         = (if String.eqb d target then 1 else 0)
           + ((if String.eqb d self then -1 else 0)
              + available_balls (devices m d)).
Proof.
  intros Hc Hreq Hpos Hne Hf.
  pose proof Hf as Hr.
  apply (proj1 (find_path_to_target_correct w fuel target self)) in Hr.
  apply first_route_sound in Hr.
  destruct (route_linked w self target p Hr) as (path & -> & Hn & Hl & Hlk).
  set (m1 := update_device self (set_ball_requests rest) m).
  assert (Ha1 : forall d,
             available_balls (devices m1 d) = available_balls (devices m d)).
  { intros d. subst m1. cbn [update_device devices].
    destruct (String.eqb d self); reflexivity. }
  assert (Hpos1 : 0 < available_balls (devices m1 self))
    by (rewrite Ha1; exact Hpos).
  destruct (setup_eject_chain_accepts w player_controlled self path m1
              Hc Hpos1 Hn Hlk) as (m' & Hm').
  exists m'. split; [| split].
  - unfold _source_device_balls_available.
    unfold bind at 1. unfold read at 1. rewrite Hreq.
    unfold bind at 1. unfold modify at 1. fold m1.
    unfold bind at 1. unfold _setup_or_queue_eject_to_target.
    rewrite Hf. cbn [search_result]. unfold bind at 1. cbn [ret].
    unfold bind at 1. unfold read at 1.
    destruct (Z.ltb_spec 0 (available_balls (devices m1 self))); [| lia].
    destruct (String.eqb_spec self target); [contradiction |].
    cbn [andb negb]. unfold bind at 1. cbn [ret].
    unfold bind at 1. rewrite Hm'. reflexivity.
  - rewrite (setup_eject_chain_keeps w ball_requests player_controlled self
               (self :: path) m1 m' (fun _ _ => eq_refl)
               (fun _ _ => eq_refl) (fun _ _ => eq_refl) Hm' self).
    subst m1. cbn [update_device devices]. rewrite String.eqb_refl.
    reflexivity.
  - destruct (setup_eject_chain_Ok w player_controlled self _ m1 m' Hm')
      as (rest' & [= <-] & _ & _ & Ha & _).
    intros d. rewrite (Ha d), Hl, Ha1. reflexivity.
Qed.

End Serving.

Lemma _source_device_balls_available_serves_witness :
  let m :=
    machine_of [("B", set_ball_requests [("C", false)] (holding 1))] [] in
  timeouts_cover line_world
  /\ find_path_to_target line_world 5 "B" "C" = Found ["B"; "C"]
  /\ exists m',
       _source_device_balls_available line_world 5 "B" m
       = Ok (Some false) m'
       /\ ball_requests (devices m' "B") = []
       /\ available_balls (devices m' "B") = 0
       /\ available_balls (devices m' "C") = 1.
Proof.
  intros m.
  assert (Hc : timeouts_cover line_world) by exact line_world_covered.
  assert (Hq : ball_requests (devices m "B") = [("C", false)])
    by reflexivity.
  assert (Hp : 0 < available_balls (devices m "B")) by reflexivity.
  assert (Hne : "B" <> "C") by discriminate.
  assert (Hf : find_path_to_target line_world 5 "B" "C" = Found ["B"; "C"])
    by reflexivity.
  split; [exact Hc |]. split; [exact Hf |].
  destruct (_source_device_balls_available_serves line_world 5 "B" m "C"
              false [] _ Hc Hq Hp Hne Hf) as (m' & Hm' & Hr & Ha).
  exists m'. split; [exact Hm' |]. split; [exact Hr |].
  rewrite (Ha "B"), (Ha "C"). split; reflexivity.
Defined.

Section Relay.

Variable w : World.

(** X15: an eject that is asked of a device without an available ball,
    to one of its eject targets, is served by a device upstream that has
    one: the chain leads from that device through the asked one to the
    target, which gains the available ball that the upstream device
    gives. *)
Theorem _setup_or_queue_eject_to_target_relays (fuel : nat)
  (self target : dev) (player_controlled : bool) (p : list dev)
  (m : Machine) :
  timeouts_cover w ->
  available_balls (devices m self) <= 0 ->
  self <> target ->
  In target (eject_targets (config w self)) ->
  find_one_available_ball w (S fuel) m self [] = Found p ->
  exists source m',
    hd_error p = Some source
    /\ _setup_or_queue_eject_to_target w (S fuel) self target
         player_controlled m = Ok true m'
    /\ setup_eject_chain w source (p ++ [target]) player_controlled m
       = Ok tt m'
    /\ forall d,
         available_balls (devices m' d)
         = (if String.eqb d target then 1 else 0)
           + ((if String.eqb d source then -1 else 0)
              + available_balls (devices m d)).
Proof.
  intros Hc Hle Hne Hin Hf.
  destruct (find_one_available_ball_shape w m (S fuel) self p Hf)
    as (source & rest & -> & Hr & Hlast & Hs & Hpos & _).
  destruct (find_one_available_ball_linked w m (S fuel) self [] _ Hf)
    as (pre & Hp & Hlk).
  assert (Hlk' : linked w ((source :: rest) ++ [target])).
  { rewrite Hp. apply linked_snoc; assumption. }
  assert (Hne' : rest ++ [target] <> [])
    by (intros E; apply app_eq_nil in E; destruct E; discriminate).
  destruct (setup_eject_chain_accepts w player_controlled source
              (rest ++ [target]) m Hc Hpos Hne' Hlk') as (m' & Hm').
  exists source, m'. split; [reflexivity |]. split; [| split].
  - unfold _setup_or_queue_eject_to_target.
    cbn [find_path_to_target].
    rewrite (proj2 (mem_In target _) Hin).
    cbn [search_result]. unfold bind at 1. cbn [ret].
    unfold bind at 1. unfold read at 1.
    destruct (Z.ltb_spec 0 (available_balls (devices m self))); [lia |].
    cbn [andb]. unfold bind at 1. unfold bind at 1.
    rewrite Hf. cbn [search_result ret].
    destruct (String.eqb_spec target self); [congruence |].
    cbn [negb]. unfold bind at 1. unfold check. cbn [negb ret].
    unfold bind. cbn [app] in Hm'. cbn [app]. rewrite Hm'. reflexivity.
  - exact Hm'.
  - destruct (setup_eject_chain_Ok w player_controlled source _ m m' Hm')
      as (rest' & [= <-] & _ & _ & Ha & _).
    rewrite last_last in Ha. exact Ha.
Qed.

End Relay.

Lemma _setup_or_queue_eject_to_target_relays_witness :
  let m := machine_of [("A", holding 1)] [] in
  timeouts_cover line_world
  /\ find_one_available_ball line_world 3 m "B" [] = Found ["A"; "B"]
  /\ exists m',
       _setup_or_queue_eject_to_target line_world 3 "B" "C" false m
       = Ok true m'
       /\ available_balls (devices m' "A") = 0
       /\ available_balls (devices m' "B") = 0
       /\ available_balls (devices m' "C") = 1.
Proof.
  intros m.
  assert (Hc : timeouts_cover line_world) by exact line_world_covered.
  assert (Hle : available_balls (devices m "B") <= 0)
    by (vm_compute; discriminate).
  assert (Hne : "B" <> "C") by discriminate.
  assert (Hin : In "C" (eject_targets (config line_world "B")))
    by (vm_compute; auto).
  assert (Hf : find_one_available_ball line_world 3 m "B" []
               = Found ["A"; "B"]) by reflexivity.
  split; [exact Hc |]. split; [exact Hf |].
  destruct (_setup_or_queue_eject_to_target_relays line_world 2 "B" "C"
              false _ m Hc Hle Hne Hin Hf)
    as (source & m' & Hs & Hm' & _ & Ha).
  injection Hs as <-.
  exists m'. split; [exact Hm' |].
  rewrite (Ha "A"), (Ha "B"), (Ha "C"). repeat split; reflexivity.
Defined.

(** ** Troughs and blocked ejects *)

Section Queue.

Variable w : World.

Lemma first_trough_route (self t : dev) :
  first_trough w self t -> self = t \/ exists p, route w self t p.
Proof.
  induction 1 as [self H | self b hop a t Hn He Hp Hb Hf IH];
    [now left |].
  assert (Hin : In hop (eject_targets (config w self)))
    by (rewrite He; apply in_or_app; right; now left).
  right. destruct IH as [<- | (p & Hr)].
  - exists [self; hop]. now constructor.
  - exists (self :: p). now apply route_hop with hop.
Qed.

(** X12: on a graph without cycles, to a trough other than the device
    itself that [find_next_trough] returns, [find_path_to_target] finds a
    path, from the device to that trough. *)
Theorem find_next_trough_reachable (rank : dev -> nat) (fuel : nat)
  (self t : dev) :
  ranked w rank ->
  (rank self < fuel)%nat ->
  find_next_trough w fuel self = Found t ->
  t <> self ->
  exists rest,
    find_path_to_target w fuel self t = Found (self :: rest)
    /\ rest <> []
    /\ last rest self = t.
Proof.
  intros Hr Hlt Hf Hne.
  apply (proj1 (find_next_trough_correct w fuel self)) in Hf.
  destruct (first_trough_route self t Hf) as [E | (p & Hp)];
    [congruence |].
  pose proof (find_path_to_target_returns w rank t Hr fuel self Hlt) as Hx.
  destruct (find_path_to_target_correct w fuel t self) as [Hfound Hnone].
  destruct (find_path_to_target w fuel self t) as [q | |] eqn:E;
    [| exfalso; exact (Hnone eq_refl p Hp) | congruence].
  specialize (Hfound q eq_refl). apply first_route_sound in Hfound.
  destruct (route_linked w self t q Hfound) as (rest & -> & Hn & Hl & _).
  exists rest. auto.
Qed.

Lemma get_additional_ball_capacity_frame (self t : dev)
  (f : Device -> Device) (m : Machine) :
  (forall s, balls (f s) = balls s) ->
  (forall s, _incoming_balls (f s) = _incoming_balls s) ->
  (forall s, eject_in_progress_target (f s) = eject_in_progress_target s) ->
  get_additional_ball_capacity w t (update_device self f m)
  = get_additional_ball_capacity w t m.
Proof.
  intros Hb Hi He.
  unfold get_additional_ball_capacity, get_real_additional_capacity.
  cbn [update_device devices].
  destruct (String.eqb t self); [rewrite Hb, Hi, He |]; reflexivity.
Qed.

Lemma get_additional_ball_capacity_full (t : dev) (m : Machine) :
  advertised_capacity w t m <= 0 -> get_additional_ball_capacity w t m = 0.
Proof.
  unfold advertised_capacity, get_additional_ball_capacity,
    get_real_additional_capacity.
  destruct (truthy (eject_in_progress_target (devices m t))); intros H;
    match goal with
    | |- (if ?c <? 0 then _ else _) = _ =>
        destruct (Z.ltb_spec c 0); lia
    end.
Qed.

(** X13: [_handle_eject_queue] of a device that holds a ball starts no
    eject while the target at the head of its queue, a device and no
    playfield, has no room: it returns [False], resets the attempt count
    and leaves the queue, the trace and every other device as they were. *)
Theorem _handle_eject_queue_waits_for_capacity (fuel : nat) (self : dev)
  (m : Machine) (target : dev) (mechanical : bool)
  (trigger : option string) (rest : list eject) :
  eject_queue (devices m self) = (Some target, mechanical, trigger) :: rest ->
  0 < balls (devices m self) ->
  is_playfield w target = false ->
  advertised_capacity w target m <= 0 ->
  exists m',
    _handle_eject_queue w fuel self m = Ok false m'
    /\ trace m' = trace m
    /\ (forall d, d <> self -> devices m' d = devices m d)
    /\ devices m' self = set_num_eject_attempts 0 (devices m self).
Proof.
  intros Hq Hb Hp Hc.
  unfold _handle_eject_queue.
  unfold bind at 1. unfold read at 1. rewrite Hq.
  unfold bind at 1. unfold modify at 1.
  set (m1 := update_device self (set_num_eject_attempts 0) m).
  assert (Hq1 : eject_queue (devices m1 self)
                = (Some target, mechanical, trigger) :: rest).
  { subst m1. cbn [update_device devices]. rewrite String.eqb_refl.
    exact Hq. }
  assert (Hb1 : balls (devices m1 self) = balls (devices m self)).
  { subst m1. cbn [update_device devices]. rewrite String.eqb_refl.
    reflexivity. }
  assert (Hc1 : get_additional_ball_capacity w target m1 = 0).
  { subst m1. rewrite get_additional_ball_capacity_frame by reflexivity.
    apply get_additional_ball_capacity_full, Hc. }
  unfold bind at 1. unfold read at 1. rewrite Hb1.
  destruct (Z.ltb_spec 0 (balls (devices m self))); [| lia].
  unfold _check_eject_queue.
  unfold bind at 1. unfold read at 1. rewrite Hq1.
  unfold bind at 1. unfold additional_ball_capacity_of. rewrite Hp, Hc1.
  cbn [Z.eqb negb ret].
  exists m1. split; [reflexivity |]. split; [reflexivity |].
  subst m1. cbn [update_device devices]. split.
  - intros d Hd. destruct (String.eqb_spec d self); [contradiction |].
    reflexivity.
  - rewrite String.eqb_refl. reflexivity.
Qed.

Lemma emitted_app (m m' : Machine) (t : list effect) :
  trace m' = trace m ++ t -> emitted m m' = t.
Proof.
  intros H. unfold emitted. rewrite H, skipn_app, skipn_all, Nat.sub_diag.
  reflexivity.
Qed.

End Queue.

Lemma find_next_trough_reachable_witness :
  ranked two_troughs_world (rank_of [("A", 2%nat); ("B", 1%nat)])
  /\ find_next_trough two_troughs_world 3 "A" = Found "D"
  /\ exists rest,
       find_path_to_target two_troughs_world 3 "A" "D" = Found ("A" :: rest)
       /\ rest <> []
       /\ last rest "A" = "D".
Proof.
  assert (Hl : (rank_of [("A", 2%nat); ("B", 1%nat)] "A" < 3)%nat)
    by (vm_compute; lia).
  assert (Hf : find_next_trough two_troughs_world 3 "A" = Found "D")
    by reflexivity.
  assert (Hne : "D" <> "A") by discriminate.
  split; [exact two_troughs_ranked |]. split; [exact Hf |].
  exact (find_next_trough_reachable two_troughs_world _ 3 "A" "D"
           two_troughs_ranked Hl Hf Hne).
Defined.

Lemma _handle_eject_queue_waits_for_capacity_witness :
  let m := machine_of [("A", about_to_eject "B"); ("B", holding 1)] [] in
  advertised_capacity line_world "B" m <= 0
  /\ exists m',
       _handle_eject_queue line_world 1 "A" m = Ok false m'
       /\ trace m' = trace m.
Proof.
  intros m.
  assert (Hq : eject_queue (devices m "A") = [(Some "B", false, None)])
    by reflexivity.
  assert (Hb : 0 < balls (devices m "A")) by reflexivity.
  assert (Hp : is_playfield line_world "B" = false) by reflexivity.
  assert (Hc : advertised_capacity line_world "B" m <= 0)
    by (vm_compute; discriminate).
  split; [exact Hc |].
  destruct (_handle_eject_queue_waits_for_capacity line_world 1 "A" m "B"
              false None [] Hq Hb Hp Hc) as (m' & Hm' & Ht & _).
  exists m'. split; [exact Hm' | exact Ht].
Defined.

(** ** Registering and removing the confirmation handlers *)

Section Confirmation.

Variable w : World.
Variable self : dev.

Section Emitting.

Variable P : effect -> Prop.

Lemma Emits_refl (m : Machine) : Emits P m m.
Proof. exists []. rewrite app_nil_r. auto. Qed.

Lemma Emits_trans (m1 m2 m3 : Machine) :
  Emits P m1 m2 -> Emits P m2 m3 -> Emits P m1 m3.
Proof.
  intros (t1 & E1 & F1) (t2 & E2 & F2). exists (t1 ++ t2).
  rewrite E2, E1, app_assoc. split; [reflexivity |].
  apply Forall_app. auto.
Qed.

Lemma Sat_Emits_bind {A B} (c : M A) (k : A -> M B) :
  Sat (Emits P) c -> (forall a, Sat (Emits P) (k a)) ->
  Sat (Emits P) (bind c k).
Proof.
  intros Hc Hk. apply Sat_bind with (Emits P) (Emits P); auto.
  apply Emits_trans.
Qed.

Lemma Sat_Emits_silent {A} (c : M A) :
  (forall m, trace (final (c m)) = trace m) -> Sat (Emits P) c.
Proof.
  intros H m. exists []. rewrite app_nil_r. auto.
Qed.

Lemma Sat_Emits_emit (e : effect) : P e -> Sat (Emits P) (emit e).
Proof. intros H m. exists [e]. split; [reflexivity | auto]. Qed.

Lemma Sat_Emits_lookup (k : option dev) (d : list (dev * Z)) :
  Sat (Emits P) (lookup k d).
Proof.
  apply Sat_Emits_silent. intros m. unfold lookup.
  destruct k as [k |]; [| reflexivity].
  destruct (dict_get k d); reflexivity.
Qed.

End Emitting.

Local Abbreviation R := (Emits (fun e => registers e -> cancelled w self e)).

Ltac silent := apply Sat_Emits_silent; intros; reflexivity.

Ltac registered :=
  apply Sat_Emits_emit; intros _; unfold cancelled;
  solve [ left; eauto
        | right; left; eauto
        | right; right; left; eauto ].

Lemma _setup_eject_confirmation_to_playfield_registers (target : dev)
  (timeout : Z) :
  Sat R (_setup_eject_confirmation_to_playfield w self target timeout).
Proof.
  unfold _setup_eject_confirmation_to_playfield.
  apply Sat_Emits_bind; [registered | intros _].
  apply Sat_Emits_bind; [silent | intros s].
  destruct (mechanical_eject_in_progress s
            && String.eqb (_state s) "waiting_for_ball_mechanical");
    [| silent].
  destruct (_incoming_balls s) as [| [deadline source] rest]; [silent |].
  apply Sat_Emits_bind; [apply Sat_Emits_lookup | intros t].
  registered.
Qed.

Lemma _setup_eject_confirmation_registers (target : option dev) :
  Sat R (_setup_eject_confirmation w self target).
Proof.
  unfold _setup_eject_confirmation.
  apply Sat_Emits_bind; [silent | intros _].
  apply Sat_Emits_bind; [silent | intros t].
  apply Sat_Emits_bind; [silent | intros _].
  apply Sat_Emits_bind; [apply Sat_Emits_lookup | intros timeout].
  apply Sat_Emits_bind.
  { destruct target as [tg |]; [| silent].
    destruct (is_playfield w tg); [| silent].
    apply _setup_eject_confirmation_to_playfield_registers. }
  intros _.
  destruct (String.eqb (confirm_eject_type (config w self)) "target").
  { unfold _setup_eject_confirmation_to_target.
    destruct target as [tg |]; [| silent].
    destruct (negb (is_playfield w tg)); [registered | silent]. }
  destruct (String.eqb_spec (confirm_eject_type (config w self)) "switch")
    as [Es | _].
  { unfold _setup_eject_confirmation_via_switch.
    destruct (confirm_eject_switch (config w self)) as [sw |] eqn:E;
      [| silent].
    apply Sat_Emits_emit. intros _. right. right. right.
    exists sw. auto. }
  destruct (String.eqb (confirm_eject_type (config w self)) "event").
  { unfold _setup_eject_confirmation_via_event. registered. }
  destruct (String.eqb (confirm_eject_type (config w self)) "fake");
    [| silent].
  unfold _setup_eject_confirmation_fake.
  destruct (ball_switches (config w self)); [registered | silent].
Qed.

Lemma for_each_emit_trace (f : string -> effect) (l : list string) :
  forall m m',
    for_each l (fun x => emit (f x)) m = Ok tt m' ->
    trace m' = trace m ++ map f l.
Proof.
  induction l as [| x l IH]; intros m m' H.
  - injection H as <-. cbn. rewrite app_nil_r. reflexivity.
  - cbn [for_each] in H. unfold bind at 1 in H. unfold emit at 1 in H.
    apply IH in H. rewrite H. cbn [record trace map].
    rewrite <- app_assoc. reflexivity.
Qed.

Lemma _cancel_eject_confirmation_removes (m m' : Machine) (e : effect) :
  _cancel_eject_confirmation w self m = Ok tt m' ->
  cancelled w self e ->
  exists r, In r (emitted m m') /\ undoes r e.
Proof.
  intros H Hc. unfold _cancel_eject_confirmation in H.
  apply bind_Ok in H. destruct H as ([] & m1 & H1 & H).
  injection H1 as <-.
  apply bind_Ok in H. destruct H as ([] & m1 & H1 & H).
  injection H1 as <-.
  apply bind_Ok in H. destruct H as ([] & m1 & H1 & H).
  injection H1 as <-.
  apply bind_Ok in H. destruct H as ([] & m1 & H1 & H).
  injection H1 as <-.
  apply bind_Ok in H. destruct H as ([] & m2 & H2 & H).
  apply for_each_emit_trace in H2.
  cbn [trace update_device record] in H2.
  apply bind_Ok in H. destruct H as ([] & m3 & H3 & H).
  apply bind_Ok in H. destruct H as ([] & m4 & H4 & H).
  injection H4 as <-.
  apply bind_Ok in H. destruct H as ([] & m4 & H4 & H).
  injection H4 as <-. injection H as <-.
  assert (Ht : exists t3,
             trace m3 = trace m2 ++ t3
             /\ forall switch,
                  confirm_eject_type (config w self) = "switch" ->
                  confirm_eject_switch (config w self) = Some switch ->
                  In (Remove_switch_handler self switch cb_eject_success) t3).
  { destruct (String.eqb_spec (confirm_eject_type (config w self)) "switch")
      as [Es | Es].
    - destruct (confirm_eject_switch (config w self)) as [sw |];
        [| discriminate H3].
      injection H3 as <-. eexists. split; [reflexivity |].
      intros switch _ [= <-]. now left.
    - injection H3 as <-. exists []. rewrite app_nil_r.
      split; [reflexivity |]. intros switch E. contradiction. }
  destruct Ht as (t3 & Ht3 & Hsw).
  rewrite (emitted_app m _
             ([Remove_handler self cb_eject_success;
               Remove_handler self cb_playfield_active]
              ++ map (fun switch =>
                        Remove_switch_handler self switch cb_eject_success)
                   (ball_switches (config w self))
              ++ t3
              ++ [Delay_remove self "target_eject_confirmation_timeout";
                  Delay_remove self "ball_missing_timeout";
                  Delay_remove self "playfield_confirmation"])).
  2:{ cbn [record trace]. rewrite Ht3, H2.
      rewrite <- !app_assoc. reflexivity. }
  destruct Hc as [(ev & cb & ->) | [(ms & cb & ->)
                 | [(ms & cb & ->) | (sw & -> & Es & Ec)]]].
  - exists (Remove_handler self cb). split; [| constructor].
    destruct cb; cbn; auto.
  - exists (Delay_remove self "playfield_confirmation").
    split; [| constructor].
    apply in_or_app. right. apply in_or_app. right. apply in_or_app.
    right. cbn. auto.
  - exists (Delay_remove self "target_eject_confirmation_timeout").
    split; [| constructor].
    apply in_or_app. right. apply in_or_app. right. apply in_or_app.
    right. cbn. auto.
  - exists (Remove_switch_handler self sw cb_eject_success).
    split; [| constructor].
    apply in_or_app. right. apply in_or_app. right. apply in_or_app.
    left. apply Hsw; assumption.
Qed.

(** X14: every handler, switch handler and delay that
    [_setup_eject_confirmation] registers, however it ends, is removed by
    [_cancel_eject_confirmation] of the same device whenever that
    returns. *)
Theorem _cancel_eject_confirmation_undoes_setup (target : option dev)
  (m1 m2 m2' : Machine) (e : effect) :
  _cancel_eject_confirmation w self m2 = Ok tt m2' ->
  In e (emitted m1 (final (_setup_eject_confirmation w self target m1))) ->
  registers e ->
  exists r, In r (emitted m2 m2') /\ undoes r e.
Proof.
  intros Hc Hin Hr.
  destruct (_setup_eject_confirmation_registers target m1) as (t & Ht & Hf).
  rewrite (emitted_app _ _ t Ht) in Hin.
  rewrite Forall_forall in Hf.
  exact (_cancel_eject_confirmation_removes m2 m2' e Hc (Hf e Hin Hr)).
Qed.

End Confirmation.

Lemma _cancel_eject_confirmation_undoes_setup_witness :
  let w := plunger_world (Some "c_plunger") None false in
  let m := machine_of [] [] in
  let e := Add_handler "plunger" "playfield_active" cb_playfield_active in
  In e (emitted m
          (final (_setup_eject_confirmation w "plunger" (Some "playfield") m)))
  /\ exists r,
       In r (emitted m (final (_cancel_eject_confirmation w "plunger" m)))
       /\ undoes r e.
Proof.
  intros w m e.
  assert (Hin : In e (emitted m
                        (final (_setup_eject_confirmation w "plunger"
                                  (Some "playfield") m))))
    by (vm_compute; auto).
  assert (Hc : _cancel_eject_confirmation w "plunger" m
               = Ok tt (final (_cancel_eject_confirmation w "plunger" m)))
    by (apply returns_final; vm_compute; reflexivity).
  split; [exact Hin |].
  exact (_cancel_eject_confirmation_undoes_setup w "plunger"
           (Some "playfield") m m _ e Hc Hin I).
Defined.
